(** * A timed wipe between two scenes rendered off screen

  Shallow embedding of the React Three Fiber transition demo:

  - [GLSL]: the few GLSL built-ins the fragment shader calls;
  - [TransitionMaterial]: the shader material (uniforms, defaults and the
    fragment shader's [main]);
  - [TransitionScene]: the component that owns the React state, the effect
    run on [toggle] and the per-frame callback that fills the two frame
    buffer objects and refreshes the uniforms;
  - [Lifecycle], [App], [SceneStore]: when the effect runs, the button of
    [App], and [createRandomGeometries], which fills the two scenes.

  GLSL [float]s and JavaScript numbers that hold times and coordinates are
  idealised as exact rationals ([Q]); equalities between them are stated
  with [==].  JavaScript numbers used as indices are integers ([Z]). *)

From Stdlib Require Import ZArith QArith Qminmax Qround Lqa Lia Bool List.
From Stdlib Require Import String.
Import ListNotations.
Open Scope Q_scope.

(** ** GLSL built-ins *)

Module GLSL.

Record vec2 := mkvec2 { x : Q; y : Q }.
Record vec3 := mkvec3 { red : Q; green : Q; blue : Q }.
(** A [vec4] is kept as its [.rgb] swizzle and its fourth component, the
    only two ways the shader builds or reads one. *)
Record vec4 := mkvec4 { rgb : vec3; alpha : Q }.

Definition vec3_eq (c1 c2 : vec3) : Prop :=
  red c1 == red c2 /\ green c1 == green c2 /\ blue c1 == blue c2.

(** [clamp(x, minVal, maxVal)] is [min(max(x, minVal), maxVal)]. *)
Definition clamp (v minVal maxVal : Q) : Q := Qmin (Qmax v minVal) maxVal.

(** [smoothstep(edge0, edge1, x)]: Hermite interpolation of the clamped
    ratio, with the edges taken in the order they are passed. *)
Definition smoothstep (edge0 edge1 v : Q) : Q :=
  let t := clamp ((v - edge0) / (edge1 - edge0)) 0.0 1.0 in
  t * t * (3.0 - 2.0 * t).

(** [mix(x, y, a)] is [x * (1 - a) + y * a], component by component. *)
Definition mix (v0 v1 w : Q) : Q := v0 * (1 - w) + v1 * w.

Definition mix3 (c0 c1 : vec3) (w : Q) : vec3 :=
  mkvec3 (mix (red c0) (red c1) w)
         (mix (green c0) (green c1) w)
         (mix (blue c0) (blue c1) w).

(** A bound [sampler2D] is the image it reads. *)
Definition sampler2D : Type := vec2 -> vec4.

Definition texture2D (s : sampler2D) (uv : vec2) : vec4 := s uv.

End GLSL.

(** ** TransitionMaterial: the shader *)

Module TransitionMaterial.
Import GLSL.

(** The seven uniforms.  [S] is what a sampler slot holds: the image itself
    where the shader reads it ([S := sampler2D]), a nullable reference to a
    texture object where JavaScript writes it. *)
Record uniforms (S : Type) := mkUniforms {
  scene0 : S;
  scene1 : S;
  aspect : Q;
  action : Q;
  time : Q;
  timeStart : Q;
  duration : Q
}.
Arguments mkUniforms {S}.
Arguments scene0 {S}.
Arguments scene1 {S}.
Arguments aspect {S}.
Arguments action {S}.
Arguments time {S}.
Arguments timeStart {S}.
Arguments duration {S}.

(** The default values handed to [shaderMaterial]. *)
Definition defaults {T : Type} : uniforms (option T) :=
  mkUniforms None None 1 0 0 (-1000) 3.

Definition waveWidth : Q := 0.25.
Definition halfWave : Q := waveWidth * 0.5.
Definition maxLength : Q := 1.0 + waveWidth.

(** [clamp((time - timeStart) / duration, 0.0, 1.0)].  The quotient is the
    rational one, which is the shader's only for a [duration] other than 0
    (there GLSL gives an infinity or an undefined value, [Q] gives 0);
    the component always passes 3. *)
Definition progress {S} (u : uniforms S) : Q :=
  clamp ((time u - timeStart u) / duration u) 0.0 1.0.

(** [currWavePos] and [f], as functions of the clamped progress. *)
Definition wavePosAt (p : Q) : Q := - halfWave + maxLength * p.

Definition blendAt (p d : Q) : Q :=
  smoothstep (wavePosAt p + halfWave) (wavePosAt p - halfWave) d.

Definition currWavePos {S} (u : uniforms S) : Q := wavePosAt (progress u).

Definition f {S} (u : uniforms S) (d : Q) : Q := blendAt (progress u) d.

(** The fragment shader's [main]: the value left in [gl_FragColor] for the
    fragment whose interpolated varying is [vUv]. *)
Definition main (u : uniforms sampler2D) (vUv : vec2) : vec4 :=
  let uv := vUv in
  let s0 := texture2D (scene0 u) uv in
  let s1 := texture2D (scene1 u) uv in
  let d := x vUv in
  let col := mix3 (rgb s0) (rgb s1) (f u d) in
  mkvec4 col 1.0.

End TransitionMaterial.

(** ** TransitionScene: the component *)

Module TransitionScene.
Import GLSL.
Module TM := TransitionMaterial.

(** The two render targets returned by [useFBO]. *)
Inductive Fbo := fbo1 | fbo2.

(** The two [THREE.Scene] objects held in the [scenes] state array. *)
Inductive Scene := scenes_0 | scenes_1.

Definition scenes : list Scene := [scenes_0; scenes_1].

(** [scenes[i]] for a JavaScript number [i]: [undefined] ([None]) unless [i]
    is an index of the array. *)
Definition scenes_at (i : Z) : option Scene :=
  if (i <? 0)%Z then None else nth_error scenes (Z.to_nat i).

(** The React state of the component ([useState] cells). *)
Record State := mkState {
  action : Z;
  currentSceneIndex : Z;
  timeStart : Q;
  isFirstRender : bool
}.

(** The initial values passed to [useState]. *)
Definition initialState : State := mkState 0 0 (-1000) true.

(** The body of the effect that depends on [toggle]; [elapsed] is what
    [clock.current.getElapsedTime()] returns when it runs.  This is the
    operation the specification calls [onTrigger]. *)
Definition toggleEffect (elapsed : Q) (s : State) : State :=
  if negb (isFirstRender s) then
    mkState (if (action s =? 0)%Z then 1 else 0)
            (if (currentSceneIndex s =? 0)%Z then 1 else 0)
            elapsed
            (isFirstRender s)
  else
    mkState (action s) (currentSceneIndex s) (timeStart s) false.

(** What the frame callback asks of the renderer and of the material, in
    the order it asks. *)
Inductive UniformValue :=
| texture_of (t : Fbo)
| number (q : Q).

Inductive Call :=
| setRenderTarget (t : option Fbo)
| render (s : Scene)
| setUniform (name : string) (v : UniformValue).

(** The mutable objects the component closes over: the renderer [gl] with
    its bound target and the images held by [fbo1.texture] and
    [fbo2.texture], the two refs, and the trace of calls made so far
    (oldest first). *)
Record World := mkWorld {
  renderTarget : option Fbo;
  texture : Fbo -> sampler2D;
  canvas : sampler2D;
  time_current : Q;
  materialRef : option (TM.uniforms (option Fbo));
  calls : list Call
}.

Definition Fbo_eqb (t1 t2 : Fbo) : bool :=
  match t1, t2 with
  | fbo1, fbo1 | fbo2, fbo2 => true
  | _, _ => false
  end.

(** State-and-exception monad of the callback: [None] is a thrown
    JavaScript exception. *)
Definition M (A : Type) : Type := World -> option (A * World).

Definition ret {A} (v : A) : M A := fun w => Some (v, w).

Definition bind {A B} (m : M A) (k : A -> M B) : M B :=
  fun w => match m w with
           | Some (v, w') => k v w'
           | None => None
           end.

Notation "m ;; k" := (bind m (fun _ => k))
  (at level 61, right associativity).
Notation "v <- m ;; k" := (bind m (fun v => k))
  (at level 61, m at next level, right associativity).

Definition throw {A} : M A := fun _ => None.

Definition log (c : Call) : M unit :=
  fun w => Some (tt, mkWorld (renderTarget w) (texture w) (canvas w)
                             (time_current w) (materialRef w)
                             (calls w ++ [c])).

Definition set_time_current (t : Q) : M unit :=
  fun w => Some (tt, mkWorld (renderTarget w) (texture w) (canvas w)
                             t (materialRef w) (calls w)).

Definition get_time_current : M Q := fun w => Some (time_current w, w).

Definition get_materialRef : M (option (TM.uniforms (option Fbo))) :=
  fun w => Some (materialRef w, w).

(** [gl.setRenderTarget(t)] *)
Definition gl_setRenderTarget (t : option Fbo) : M unit :=
  (fun w => Some (tt, mkWorld t (texture w) (canvas w) (time_current w)
                              (materialRef w) (calls w))) ;;
  log (setRenderTarget t).

Section Rendering.

(** The camera pose and the image the renderer draws of a scene seen from
    it: three.js, not this repository. *)
Variable Camera : Type.
Variable rasterize : Scene -> Camera -> sampler2D.

(** [gl.render(scene, camera)]: draws into the bound target, or onto the
    canvas when none is bound; throws on an [undefined] scene. *)
Definition gl_render (scene : option Scene) (camera : Camera) : M unit :=
  match scene with
  | None => throw
  | Some sc =>
      (fun w =>
         Some (tt,
               match renderTarget w with
               | Some t =>
                   mkWorld (renderTarget w)
                           (fun t' => if Fbo_eqb t' t then rasterize sc camera
                                      else texture w t')
                           (canvas w) (time_current w) (materialRef w)
                           (calls w)
               | None =>
                   mkWorld (renderTarget w) (texture w) (rasterize sc camera)
                           (time_current w) (materialRef w) (calls w)
               end)) ;;
      log (render sc)
  end.

(** Assignment to [materialRef.current.uniforms.<name>.value]. *)
Definition update_material
    (upd : TM.uniforms (option Fbo) -> TM.uniforms (option Fbo))
    (name : string) (v : UniformValue) : M unit :=
  (fun w => Some (tt, mkWorld (renderTarget w) (texture w) (canvas w)
                              (time_current w)
                              (option_map upd (materialRef w)) (calls w))) ;;
  log (setUniform name v).

Definition set_scene0 (t : Fbo) : M unit :=
  update_material
    (fun m => TM.mkUniforms (Some t) (TM.scene1 m) (TM.aspect m) (TM.action m)
                            (TM.time m) (TM.timeStart m) (TM.duration m))
    "scene0" (texture_of t).

Definition set_scene1 (t : Fbo) : M unit :=
  update_material
    (fun m => TM.mkUniforms (TM.scene0 m) (Some t) (TM.aspect m) (TM.action m)
                            (TM.time m) (TM.timeStart m) (TM.duration m))
    "scene1" (texture_of t).

Definition set_time (q : Q) : M unit :=
  update_material
    (fun m => TM.mkUniforms (TM.scene0 m) (TM.scene1 m) (TM.aspect m)
                            (TM.action m) q (TM.timeStart m) (TM.duration m))
    "time" (number q).

Definition set_timeStart (q : Q) : M unit :=
  update_material
    (fun m => TM.mkUniforms (TM.scene0 m) (TM.scene1 m) (TM.aspect m)
                            (TM.action m) (TM.time m) q (TM.duration m))
    "timeStart" (number q).

(** The callback registered with [useFrame], closed over the state [s] of
    the latest React render; [elapsed] is the clock reading it takes. *)
Definition useFrame (s : State) (camera : Camera) (elapsed : Q) : M unit :=
  set_time_current elapsed ;;
  gl_setRenderTarget (Some fbo1) ;;
  gl_render (scenes_at (currentSceneIndex s)) camera ;;
  gl_setRenderTarget (Some fbo2) ;;
  gl_render (scenes_at (1 - currentSceneIndex s)) camera ;;
  gl_setRenderTarget None ;;
  m <- get_materialRef ;;
  match m with
  | Some _ =>
      set_scene0 fbo1 ;;
      set_scene1 fbo2 ;;
      (t <- get_time_current ;; set_time t) ;;
      set_timeStart (timeStart s)
  | None => ret tt
  end.

End Rendering.

(** The viewport size returned by [useThree]. *)
Record Size := mkSize { width : Q; height : Q }.

(** The props of the [<transitionMaterial>] element, written to the material
    when React commits a render of the component in state [s]; the ref is
    attached by the same commit, and a material that does not exist yet is
    created from the defaults. *)
Definition commit (size : Size) (s : State) : M unit :=
  fun w =>
    let m := match materialRef w with
             | Some m => m
             | None => TM.defaults
             end in
    Some (tt, mkWorld (renderTarget w) (texture w) (canvas w)
                      (time_current w)
                      (Some (TM.mkUniforms (TM.scene0 m) (TM.scene1 m)
                                           (width size / height size)
                                           (inject_Z (action s))
                                           (time_current w)
                                           (timeStart s)
                                           3))
                      (calls w)).

(** What a sampler reads: the image of the referenced texture, opaque
    black for a [null] slot (three.js binds its empty texture). *)
Definition emptyTexture : sampler2D := fun _ => mkvec4 (mkvec3 0 0 0) 1.

Definition bound (w : World) (v : option Fbo) : sampler2D :=
  match v with
  | Some t => texture w t
  | None => emptyTexture
  end.

Definition upload (w : World) (m : TM.uniforms (option Fbo))
  : TM.uniforms sampler2D :=
  TM.mkUniforms (bound w (TM.scene0 m)) (bound w (TM.scene1 m))
                (TM.aspect m) (TM.action m) (TM.time m) (TM.timeStart m)
                (TM.duration m).

(** The compositor pass over the full-screen quad: the colour the fragment
    shader gives each [vUv], when there is a material to draw with. *)
Definition composite (w : World) : option (vec2 -> vec4) :=
  option_map (fun m => TM.main (upload w m)) (materialRef w).

(** Nothing drawn yet, no material, [time.current = 0]. *)
Definition blank : sampler2D := fun _ => mkvec4 (mkvec3 0 0 0) 0.

Definition initialWorld : World :=
  mkWorld None (fun _ => blank) blank 0 None [].

(** [currentSceneIndex] is one of the two indices of [scenes]. *)
Definition index_ok (s : State) : bool :=
  (currentSceneIndex s =? 0)%Z || (currentSceneIndex s =? 1)%Z.

Section Run.

Variable Camera : Type.
Variable rasterize : Scene -> Camera -> sampler2D.
Variable size : Size.

(** What happens to the component between two moments: the effect on
    [toggle] runs (followed by the React render its state updates cause), or
    an animation frame is delivered. *)
Inductive Event :=
| Toggle (elapsed : Q)
| Frame (camera : Camera) (elapsed : Q).

Definition step (e : Event) (sw : State * World) : option (State * World) :=
  let (s, w) := sw in
  match e with
  | Toggle elapsed =>
      let s' := toggleEffect elapsed s in
      match commit size s' w with
      | Some (_, w') => Some (s', w')
      | None => None
      end
  | Frame camera elapsed =>
      match useFrame Camera rasterize s camera elapsed w with
      | Some (_, w') => Some (s, w')
      | None => None
      end
  end.

Fixpoint run (es : list Event) (sw : State * World)
  : option (State * World) :=
  match es with
  | [] => Some sw
  | e :: es' =>
      match step e sw with
      | Some sw' => run es' sw'
      | None => None
      end
  end.

(** The component once mounted: first render committed with the initial
    state. *)
Definition mounted : option (State * World) :=
  match commit size initialState initialWorld with
  | Some (_, w) => Some (initialState, w)
  | None => None
  end.

End Run.

Arguments Toggle {Camera}.
Arguments Frame {Camera}.

End TransitionScene.

(** ** The rest of the component's life: mounting, clicks, scene contents *)

Module Lifecycle.
Import GLSL TransitionScene.

(** [useEffect(..., [toggle])]: the effect runs after the first render
    ([prev = None]) and after every later render whose [toggle] differs
    from the one of the render before. *)
Definition effectOnToggle (prev : option bool) (toggle : bool)
    (elapsed : Q) (s : State) : State :=
  match prev with
  | None => toggleEffect elapsed s
  | Some p => if Bool.eqb p toggle then s else toggleEffect elapsed s
  end.

(** The clock reading an event is delivered at. *)
Definition reading {Camera : Type} (e : Event Camera) : Q :=
  match e with
  | Toggle elapsed => elapsed
  | Frame _ elapsed => elapsed
  end.

(** The readings of [es], taken after [t0], never go back:
    [clock.getElapsedTime()] is monotonic. *)
Fixpoint nondecreasing {Camera : Type} (t0 : Q)
    (es : list (Event Camera)) : Prop :=
  match es with
  | [] => True
  | e :: es' => t0 <= reading e /\ nondecreasing (reading e) es'
  end.

End Lifecycle.

(** ** App: the button *)

Module App.
Import TransitionScene Lifecycle.

(** The [toggle] state of [App] and the state of the [TransitionScene] it
    renders. *)
Record AppState := mkApp {
  toggle : bool;
  scene : State
}.

(** [setToggle((prev) => !prev)] *)
Definition toggleScene (prev : bool) : bool := negb prev.

(** First render of [App] ([toggle] starts [false]) and of the scene
    inside it; the scene's effect runs at clock reading [elapsed]. *)
Definition mount (elapsed : Q) : AppState :=
  mkApp false (effectOnToggle None false elapsed initialState).

(** A click on the button: [App] renders again with the new [toggle], and
    the scene's effect sees the old and the new value. *)
Definition click (elapsed : Q) (a : AppState) : AppState :=
  let toggle' := toggleScene (toggle a) in
  mkApp toggle' (effectOnToggle (Some (toggle a)) toggle' elapsed (scene a)).

Definition clicks (readings : list Q) (a : AppState) : AppState :=
  fold_left (fun a' elapsed => click elapsed a') readings a.

End App.

(** ** createRandomGeometries: what the two scenes contain *)

Module SceneStore.

Inductive Geometry :=
| BoxGeometry
| SphereGeometry
| ConeGeometry
| CylinderGeometry
| TorusGeometry.

Definition geometries : list Geometry :=
  [BoxGeometry; SphereGeometry; ConeGeometry; CylinderGeometry;
   TorusGeometry].

(** [geometries[i]] for an integral number [i]; [undefined] is [None]. *)
Definition geometries_at (i : Z) : option Geometry :=
  if (i <? 0)%Z then None else nth_error geometries (Z.to_nat i).

(** [Math.PI], the double 3.141592653589793. *)
Definition Math_PI : Q := 884279719003555 # 281474976710656.

Record Vector3 := mkVector3 { vx : Q; vy : Q; vz : Q }.

(** A [THREE.Mesh] as the loop builds it: the geometry and the colour
    number passed to the constructors, then the position and the rotation
    that are set. *)
Record Mesh := mkMesh {
  geometry : option Geometry;
  color : Q;
  position : Vector3;
  rotation : Vector3
}.

Section Random.

(** [random k] is what the [k]-th of the calls of [Math.random()] written
    in [createRandomGeometries] returns.  Only these calls are numbered:
    the generator is shared, and whatever three.js draws from it inside
    its constructors falls between them and is not counted. *)
Variable random : nat -> Q.

(** One turn of the loop body, started when the function has made [n]
    calls of its own: the mesh it adds and the number of its calls
    afterwards.  The eight calls are made in the order the source
    evaluates them: geometry index, colour, position x, y, z, rotation
    x, y, z. *)
Definition newMesh (n : nat) : Mesh * nat :=
  let geometry :=
    geometries_at
      (Qfloor (random n * inject_Z (Z.of_nat (List.length geometries)))) in
  let color := random (n + 1)%nat * 16777215 in
  let position :=
    mkVector3 (random (n + 2)%nat * 20 - 10)
              (random (n + 3)%nat * 20 - 10)
              (random (n + 4)%nat * 20 - 10) in
  let rotation :=
    mkVector3 (random (n + 5)%nat * Math_PI)
              (random (n + 6)%nat * Math_PI)
              (random (n + 7)%nat * Math_PI) in
  (mkMesh geometry color position rotation, (n + 8)%nat).

(** [turns] more turns of the [for] loop; [scene.add(mesh)] appends to the
    scene's children. *)
Fixpoint loop (turns n : nat) (children : list Mesh) : list Mesh * nat :=
  match turns with
  | O => (children, n)
  | S turns' =>
      let (mesh, n') := newMesh n in
      loop turns' n' (children ++ [mesh])
  end.

Definition createRandomGeometries (n : nat) (children : list Mesh)
  : list Mesh * nat :=
  loop 50 n children.

(** The effect run on mount: [createRandomGeometries(scenes[0])], then
    [createRandomGeometries(scenes[1])]. *)
Definition populate (n : nat) (children0 children1 : list Mesh)
  : list Mesh * list Mesh * nat :=
  let (c0, n0) := createRandomGeometries n children0 in
  let (c1, n1) := createRandomGeometries n0 children1 in
  (c0, c1, n1).

End Random.

(** What the numbers of [Math.random()] guarantee about a mesh. *)
Definition in_range (lo hi v : Q) : Prop := lo <= v /\ v < hi.

Definition vector_in_range (lo hi : Q) (v : Vector3) : Prop :=
  in_range lo hi (vx v) /\ in_range lo hi (vy v) /\ in_range lo hi (vz v).

Definition mesh_in_range (m : Mesh) : Prop :=
  (exists g, geometry m = Some g) /\
  in_range 0 16777215 (color m) /\
  vector_in_range (-10) 10 (position m) /\
  vector_in_range 0 Math_PI (rotation m).

End SceneStore.

(** ** Sample inputs *)

Module Samples.
Import GLSL TransitionMaterial.

Definition plain (c : vec3) : sampler2D := fun _ => mkvec4 c 1.

Definition crimson : vec3 := mkvec3 1 0 0.
Definition navy : vec3 := mkvec3 0 0 (1 # 2).

(** The uniforms of a frame drawn at clock reading [now], before any
    transition was started. *)
Definition at_rest (now : Q) : uniforms sampler2D :=
  mkUniforms (plain crimson) (plain navy) 1 0 now (-1000) 3.

(** The uniforms of a frame drawn at [now] of a transition started at 0. *)
Definition started_at_0 (now : Q) : uniforms sampler2D :=
  mkUniforms (plain crimson) (plain navy) 1 0 now 0 3.

Definition centre : vec2 := mkvec2 (1 # 2) (1 # 2).

(** A renderer that draws the first scene crimson and the second navy,
    whatever the camera. *)
Definition paint (sc : TransitionScene.Scene) (_ : unit) : sampler2D :=
  match sc with
  | TransitionScene.scenes_0 => plain crimson
  | TransitionScene.scenes_1 => plain navy
  end.

Definition viewport : TransitionScene.Size := TransitionScene.mkSize 800 600.

(** The state after the effect has run once on mount, and the state in the
    middle of a wipe started at clock reading 0. *)
Definition settled : TransitionScene.State :=
  TransitionScene.mkState 0 0 (-1000) false.

Definition wiping : TransitionScene.State :=
  TransitionScene.mkState 1 1 0 false.

(** The world as React leaves it after committing a render in state [s],
    starting from nothing. *)
Definition committed (s : TransitionScene.State) : TransitionScene.World :=
  match TransitionScene.commit viewport s TransitionScene.initialWorld with
  | Some (_, w) => w
  | None => TransitionScene.initialWorld
  end.

End Samples.

(** ** Properties of the wipe shader *)

Module ShaderProperties.
Import GLSL TransitionMaterial Samples.

(** *** The clamp to the unit interval *)

Lemma clamp_wd v1 v2 lo hi : v1 == v2 -> clamp v1 lo hi == clamp v2 lo hi.
Proof. intros E. unfold clamp. now rewrite E. Qed.

Lemma clamp_unit_range v : 0 <= clamp v 0.0 1.0 <= 1.
Proof.
  unfold clamp.
  destruct (Q.min_spec (Qmax v 0.0) 1.0) as [[? E]|[? E]];
    destruct (Q.max_spec v 0.0) as [[? E']|[? E']];
    rewrite E; try rewrite E'; lra.
Qed.

Lemma clamp_unit_mono v1 v2 : v1 <= v2 -> clamp v1 0.0 1.0 <= clamp v2 0.0 1.0.
Proof.
  intros L. unfold clamp.
  apply Q.min_le_compat_r, Q.max_le_compat_r, L.
Qed.

Lemma clamp_unit_high v : 1 <= v -> clamp v 0.0 1.0 == 1.
Proof.
  intros L. unfold clamp.
  rewrite Q.min_r.
  - reflexivity.
  - apply Qle_trans with v; [lra | apply Q.le_max_l].
Qed.

Lemma clamp_unit_low v : v <= 0 -> clamp v 0.0 1.0 == 0.
Proof.
  intros L. unfold clamp.
  rewrite Q.max_r by lra. rewrite Q.min_l by lra. reflexivity.
Qed.

Lemma clamp_unit_mid v : 0 <= v <= 1 -> clamp v 0.0 1.0 == v.
Proof.
  intros L. unfold clamp.
  rewrite Q.max_l by lra. rewrite Q.min_l by lra. reflexivity.
Qed.

(** The cubic of [smoothstep] is non-decreasing on the unit interval. *)
Lemma cubic_mono t1 t2 :
  0 <= t1 -> t1 <= t2 -> t2 <= 1 ->
  t1 * t1 * (3.0 - 2.0 * t1) <= t2 * t2 * (3.0 - 2.0 * t2).
Proof.
  intros H0 H12 H1.
  assert (Ha : 0 <= t1 * (1 - t1)) by (apply Qmult_le_0_compat; lra).
  assert (Hb : 0 <= t2 * (1 - t2)) by (apply Qmult_le_0_compat; lra).
  assert (Hab : 0 <= t1 * (1 - t2)) by (apply Qmult_le_0_compat; lra).
  assert (Hba : 0 <= t2 * (1 - t1)) by (apply Qmult_le_0_compat; lra).
  assert (K : 0 <= (t2 - t1) * (2 * (t1 * (1 - t1)) + 2 * (t2 * (1 - t2))
                                + t1 * (1 - t2) + t2 * (1 - t1)))
    by (apply Qmult_le_0_compat; lra).
  assert (E : t2 * t2 * (3.0 - 2.0 * t2) - t1 * t1 * (3.0 - 2.0 * t1) ==
              (t2 - t1) * (2 * (t1 * (1 - t1)) + 2 * (t2 * (1 - t2))
                           + t1 * (1 - t2) + t2 * (1 - t1))) by ring.
  lra.
Qed.

Lemma band_ratio p d :
  (d - (wavePosAt p + halfWave))
    / ((wavePosAt p - halfWave) - (wavePosAt p + halfWave))
  == 5 * p - 4 * d.
Proof.
  unfold wavePosAt, halfWave, maxLength, waveWidth.
  field. intro H. lra.
Qed.

Lemma blendAt_cubic p d :
  blendAt p d ==
  clamp (5 * p - 4 * d) 0.0 1.0 * clamp (5 * p - 4 * d) 0.0 1.0
  * (3.0 - 2.0 * clamp (5 * p - 4 * d) 0.0 1.0).
Proof.
  unfold blendAt, smoothstep. cbv zeta.
  rewrite (clamp_wd _ _ 0.0 1.0 (band_ratio p d)). reflexivity.
Qed.

Lemma blendAt_wd p1 p2 d : p1 == p2 -> blendAt p1 d == blendAt p2 d.
Proof.
  intros E. rewrite !blendAt_cubic.
  assert (Ec : clamp (5 * p1 - 4 * d) 0.0 1.0 == clamp (5 * p2 - 4 * d) 0.0 1.0)
    by (apply clamp_wd; rewrite E; reflexivity).
  rewrite Ec. reflexivity.
Qed.

Lemma blendAt_mono_p p1 p2 d : p1 <= p2 -> blendAt p1 d <= blendAt p2 d.
Proof.
  intros L. rewrite !blendAt_cubic.
  pose proof (clamp_unit_range (5 * p1 - 4 * d)).
  pose proof (clamp_unit_range (5 * p2 - 4 * d)).
  apply cubic_mono; try tauto.
  apply clamp_unit_mono. lra.
Qed.

Lemma blendAt_antimono_d p d1 d2 : d1 <= d2 -> blendAt p d2 <= blendAt p d1.
Proof.
  intros L. rewrite !blendAt_cubic.
  pose proof (clamp_unit_range (5 * p - 4 * d1)).
  pose proof (clamp_unit_range (5 * p - 4 * d2)).
  apply cubic_mono; try tauto.
  apply clamp_unit_mono. lra.
Qed.

Lemma blendAt_left p d : d <= wavePosAt p - halfWave -> blendAt p d == 1.
Proof.
  intros L. rewrite blendAt_cubic.
  rewrite (clamp_unit_high (5 * p - 4 * d)).
  - lra.
  - unfold wavePosAt, halfWave, maxLength, waveWidth in L. lra.
Qed.

Lemma blendAt_right p d : wavePosAt p + halfWave <= d -> blendAt p d == 0.
Proof.
  intros L. rewrite blendAt_cubic.
  rewrite (clamp_unit_low (5 * p - 4 * d)).
  - lra.
  - unfold wavePosAt, halfWave, maxLength, waveWidth in L. lra.
Qed.

(** The cubic of [smoothstep] is increasing on the unit interval. *)
Lemma cubic_strict t1 t2 :
  0 <= t1 -> t1 < t2 -> t2 <= 1 ->
  t1 * t1 * (3.0 - 2.0 * t1) < t2 * t2 * (3.0 - 2.0 * t2).
Proof.
  intros H0 H12 H1.
  assert (Ha : 0 <= t1 * (1 - t1)) by (apply Qmult_le_0_compat; lra).
  assert (Hb : 0 <= t2 * (1 - t2)) by (apply Qmult_le_0_compat; lra).
  assert (Hab : 0 <= t1 * (1 - t2)) by (apply Qmult_le_0_compat; lra).
  assert (Hba : 0 < t2 * (1 - t1)) by (apply Qmult_lt_0_compat; lra).
  assert (K : 0 < (t2 - t1) * (2 * (t1 * (1 - t1)) + 2 * (t2 * (1 - t2))
                               + t1 * (1 - t2) + t2 * (1 - t1)))
    by (apply Qmult_lt_0_compat; lra).
  assert (E : t2 * t2 * (3.0 - 2.0 * t2) - t1 * t1 * (3.0 - 2.0 * t1) ==
              (t2 - t1) * (2 * (t1 * (1 - t1)) + 2 * (t2 * (1 - t2))
                           + t1 * (1 - t2) + t2 * (1 - t1))) by ring.
  lra.
Qed.

(** Where a fragment is strictly inside the band, a smaller progress gives
    it a strictly smaller blend factor. *)
Lemma blendAt_strict_p p1 p2 d :
  p1 < p2 -> 0 < blendAt p2 d < 1 -> blendAt p1 d < blendAt p2 d.
Proof.
  intros Hlt. rewrite !blendAt_cubic.
  set (v1 := 5 * p1 - 4 * d). set (v2 := 5 * p2 - 4 * d).
  assert (Hv : v1 < v2) by (subst v1 v2; lra).
  pose proof (clamp_unit_range v1) as [Hlo1 Hhi1].
  intros [Hpos Hlt1].
  assert (H2 : 0 < v2 < 1).
  { split.
    - destruct (Qlt_le_dec 0 v2) as [H | H]; [exact H |].
      rewrite (clamp_unit_low v2 H) in Hpos. lra.
    - destruct (Qlt_le_dec v2 1) as [H | H]; [exact H |].
      rewrite (clamp_unit_high v2 H) in Hlt1. lra. }
  assert (E2 : clamp v2 0.0 1.0 == v2) by (apply clamp_unit_mid; lra).
  assert (H1 : clamp v1 0.0 1.0 < v2).
  { destruct (Qlt_le_dec 0 v1) as [H | H].
    - rewrite (clamp_unit_mid v1) by lra. exact Hv.
    - rewrite (clamp_unit_low v1 H). lra. }
  rewrite E2. apply cubic_strict; lra.
Qed.

(** The same, for two unclamped ratios [(time - timeStart) / duration]. *)
Lemma blend_drops_with_ratio ra rb d :
  ra < rb -> 0 <= d <= 1 ->
  0 < blendAt (clamp rb 0.0 1.0) d < 1 ->
  blendAt (clamp ra 0.0 1.0) d < blendAt (clamp rb 0.0 1.0) d.
Proof.
  intros Hlt Hd Hb.
  assert (Hrb : 0 < rb < 1).
  { split.
    - destruct (Qlt_le_dec 0 rb) as [H | H]; [exact H |].
      rewrite (blendAt_wd _ 0 d (clamp_unit_low rb H)) in Hb.
      rewrite blendAt_right in Hb; [lra |].
      unfold wavePosAt, halfWave, maxLength, waveWidth. lra.
    - destruct (Qlt_le_dec rb 1) as [H | H]; [exact H |].
      rewrite (blendAt_wd _ 1 d (clamp_unit_high rb H)) in Hb.
      rewrite blendAt_left in Hb; [lra |].
      unfold wavePosAt, halfWave, maxLength, waveWidth. lra. }
  apply blendAt_strict_p; [| exact Hb].
  rewrite (clamp_unit_mid rb) by lra.
  destruct (Qlt_le_dec 0 ra) as [H | H].
  - rewrite (clamp_unit_mid ra) by lra. exact Hlt.
  - rewrite (clamp_unit_low ra H). lra.
Qed.

Lemma progress_range {S} (u : uniforms S) : 0 <= progress u <= 1.
Proof. apply clamp_unit_range. Qed.

Lemma progress_done {S} (u : uniforms S) :
  0 < duration u -> duration u <= time u - timeStart u -> progress u == 1.
Proof.
  intros Hd Ht. unfold progress. apply clamp_unit_high.
  apply Qle_shift_div_l; lra.
Qed.

Lemma progress_mono {S} (u1 u2 : uniforms S) :
  timeStart u1 == timeStart u2 -> duration u1 == duration u2 ->
  0 < duration u1 -> time u1 <= time u2 -> progress u1 <= progress u2.
Proof.
  intros Es Ed Hd Ht. unfold progress. apply clamp_unit_mono.
  rewrite <- Ed, <- Es. unfold Qdiv.
  apply Qmult_le_compat_r; [lra|].
  apply Qlt_le_weak, Qinv_lt_0_compat, Hd.
Qed.


(** *** The wipe: steady state, direction, monotonicity, independence *)

(** C1.  Once [time - timeStart] has reached a (positive) [duration], and in
    particular with the sentinel [timeStart = -1000], [duration = 3] and any
    [time >= 0], the clamped progress is 1, the blend factor is 1 at every
    [d] in [[0,1]], and the colour written to [gl_FragColor] is the colour
    sampled from [scene1] at that fragment (with the fourth component set
    to 1.0, as the shader always does). *)
Theorem steady_state_shows_scene1 (u : uniforms sampler2D) (vUv : vec2) :
  0 <= x vUv <= 1 ->
  (0 < duration u /\ duration u <= time u - timeStart u) \/
  (timeStart u == -1000 /\ duration u == 3 /\ 0 <= time u) ->
  progress u == 1 /\
  f u (x vUv) == 1 /\
  vec3_eq (rgb (main u vUv)) (rgb (texture2D (scene1 u) vUv)) /\
  alpha (main u vUv) == 1.
Proof.
  intros Hd Hsteady.
  assert (Hp : progress u == 1).
  { destruct Hsteady as [[Hpos Hdone] | (Hs & Hdur & Hnow)].
    - now apply progress_done.
    - apply progress_done; lra. }
  assert (Hf : f u (x vUv) == 1).
  { unfold f. rewrite blendAt_cubic.
    rewrite (clamp_unit_high (5 * progress u - 4 * x vUv)) by lra. lra. }
  split; [exact Hp | split; [exact Hf |]].
  split; [| reflexivity].
  unfold main, mix3, mix, vec3_eq, texture2D; cbn [rgb red green blue].
  repeat split; rewrite Hf; ring.
Qed.

Lemma steady_state_shows_scene1_at_rest :
  progress (at_rest 0) == 1 /\
  f (at_rest 0) (x centre) == 1 /\
  vec3_eq (rgb (main (at_rest 0) centre)) navy /\
  alpha (main (at_rest 0) centre) == 1.
Proof.
  apply (steady_state_shows_scene1 (at_rest 0) centre).
  - simpl. lra.
  - right. simpl. lra.
Defined.

(** C3, as stated, fails: half way through ([p = 1/2]) the fragment at
    [d = 1/4] already shows [scene1] ([f = 1]) while the one at [d = 3/4]
    still shows [scene0] ([f = 0]). *)
Lemma larger_d_not_revealed_first :
  0 <= (1 # 2) <= 1 /\ 0 <= (1 # 4) /\ (1 # 4) < (3 # 4) /\ (3 # 4) <= 1 /\
  blendAt (1 # 2) (1 # 4) == 1 /\ blendAt (1 # 2) (3 # 4) == 0 /\
  ~ blendAt (1 # 2) (1 # 4) <= blendAt (1 # 2) (3 # 4).
Proof.
  assert (E1 : blendAt (1 # 2) (1 # 4) == 1) by reflexivity.
  assert (E0 : blendAt (1 # 2) (3 # 4) == 0) by reflexivity.
  repeat split; try lra; try assumption.
Qed.

(** C3, amended.  With the reversed edges the blend factor is non-increasing
    in [d]: for every progress [p] in [[0,1]] and [d1 < d2] in [[0,1]],
    [f(d2, p) <= f(d1, p)]; [scene1] is revealed at smaller [d] first, so
    the wipe runs from [d = 0] towards [d = 1]. *)
Theorem wipe_reveals_smaller_d_first (p d1 d2 : Q) :
  0 <= p <= 1 -> 0 <= d1 -> d1 < d2 -> d2 <= 1 ->
  blendAt p d2 <= blendAt p d1.
Proof.
  intros _ _ Hlt _. apply blendAt_antimono_d. lra.
Qed.

Lemma wipe_reveals_smaller_d_first_half_way :
  blendAt (1 # 2) (3 # 4) <= blendAt (1 # 2) (1 # 4).
Proof.
  apply (wipe_reveals_smaller_d_first (1 # 2) (1 # 4) (3 # 4)); lra.
Defined.

(** C7.  With [timeStart] and a positive [duration] fixed, the blend factor
    of a fragment with [d] in [(0,1)] does not decrease while [time] goes
    from [timeStart] to [timeStart + duration]; and at a fixed [time] it is
    monotonic (non-increasing) in [d] across the band
    [[currWavePos - halfWave, currWavePos + halfWave]], equal to 1 on the
    left of the band and to 0 on its right. *)
Theorem blend_monotone_sweep (u u' : uniforms sampler2D) (d d1 d2 : Q) :
  0 < duration u ->
  timeStart u' == timeStart u -> duration u' == duration u ->
  (0 < d < 1 ->
   timeStart u <= time u -> time u <= time u' ->
   time u' <= timeStart u + duration u ->
   f u d <= f u' d) /\
  (currWavePos u - halfWave <= d1 -> d1 <= d2 ->
   d2 <= currWavePos u + halfWave ->
   f u d2 <= f u d1) /\
  (d <= currWavePos u - halfWave -> f u d == 1) /\
  (currWavePos u + halfWave <= d -> f u d == 0).
Proof.
  intros Hdur Es Ed. repeat split.
  - intros _ _ Ht _. apply blendAt_mono_p.
    apply progress_mono; lra.
  - intros _ Hle _. now apply blendAt_antimono_d.
  - apply blendAt_left.
  - apply blendAt_right.
Qed.

Lemma blend_monotone_sweep_started_at_0 :
  f (started_at_0 1) (1 # 2) <= f (started_at_0 2) (1 # 2) /\
  f (started_at_0 1) (3 # 8) <= f (started_at_0 1) (1 # 3) /\
  f (started_at_0 1) (1 # 8) == 1 /\
  f (started_at_0 1) (1 # 2) == 0.
Proof.
  assert (W : currWavePos (started_at_0 1) == 7 # 24) by reflexivity.
  destruct (blend_monotone_sweep (started_at_0 1) (started_at_0 2)
              (1 # 2) (1 # 3) (3 # 8)) as (Ht & Hband & _);
    [simpl; lra | reflexivity | reflexivity |].
  destruct (blend_monotone_sweep (started_at_0 1) (started_at_0 2)
              (1 # 8) (1 # 3) (3 # 8)) as (_ & _ & Hleft & _);
    [simpl; lra | reflexivity | reflexivity |].
  destruct (blend_monotone_sweep (started_at_0 1) (started_at_0 2)
              (1 # 2) (1 # 3) (3 # 8)) as (_ & _ & _ & Hright);
    [simpl; lra | reflexivity | reflexivity |].
  unfold halfWave, waveWidth in *.
  split; [| split; [| split]].
  - apply Ht; simpl; lra.
  - apply Hband; lra.
  - apply Hleft; lra.
  - apply Hright; lra.
Defined.

(** C10.  Two uniform snapshots that agree on [scene0], [scene1], [time],
    [timeStart] and [duration] give every fragment the same output,
    whatever their [aspect] and [action]. *)
Theorem main_ignores_aspect_and_action (u1 u2 : uniforms sampler2D) :
  scene0 u1 = scene0 u2 -> scene1 u1 = scene1 u2 ->
  time u1 = time u2 -> timeStart u1 = timeStart u2 ->
  duration u1 = duration u2 ->
  forall vUv : vec2, main u1 vUv = main u2 vUv.
Proof.
  destruct u1, u2; cbn [scene0 scene1 time timeStart duration].
  intros -> -> -> -> -> vUv. reflexivity.
Qed.

Lemma main_ignores_aspect_and_action_sample :
  main (mkUniforms (plain crimson) (plain navy) 1 0 1 0 3) centre =
  main (mkUniforms (plain crimson) (plain navy) (16 # 9) 1 1 0 3) centre.
Proof.
  apply main_ignores_aspect_and_action; reflexivity.
Defined.

End ShaderProperties.

(** ** Properties of the component *)

Module SceneProperties.
Import GLSL TransitionScene Samples ShaderProperties.

Ltac frame_eval :=
  cbv [useFrame bind ret set_time_current get_time_current
       gl_setRenderTarget gl_render scenes_at scenes log get_materialRef
       throw update_material set_scene0 set_scene1 set_time set_timeStart
       option_map materialRef renderTarget texture canvas time_current calls
       currentSceneIndex timeStart Fbo_eqb
       Z.ltb Z.eqb Z.compare Z.to_nat Z.sub Z.add Z.opp Z.pos_sub
       Pos.to_nat Pos.iter_op nth_error Nat.add].

Section Frames.

Variable Camera : Type.
Variable rasterize : Scene -> Camera -> sampler2D.

(** The scene found at index [i] when [i] is 0 or 1, and the other one. *)
Local Abbreviation pick i := (if (i =? 0)%Z then scenes_0 else scenes_1).
Local Abbreviation other i := (if (i =? 0)%Z then scenes_1 else scenes_0).

Local Abbreviation passes s :=
  [setRenderTarget (Some fbo1); render (pick (currentSceneIndex s));
   setRenderTarget (Some fbo2); render (other (currentSceneIndex s));
   setRenderTarget None].

Lemma index_ok_cases s :
  index_ok s = true -> currentSceneIndex s = 0%Z \/ currentSceneIndex s = 1%Z.
Proof.
  unfold index_ok. intros H. apply orb_true_iff in H.
  destruct H as [H | H]; apply Z.eqb_eq in H; auto.
Qed.

(** Everything one run of the frame callback does. *)
Lemma useFrame_spec s camera elapsed w :
  index_ok s = true ->
  exists w',
    useFrame Camera rasterize s camera elapsed w = Some (tt, w') /\
    renderTarget w' = None /\
    texture w' fbo1 = rasterize (pick (currentSceneIndex s)) camera /\
    texture w' fbo2 = rasterize (other (currentSceneIndex s)) camera /\
    canvas w' = canvas w /\
    time_current w' = elapsed /\
    materialRef w' =
      option_map
        (fun m => TM.mkUniforms (Some fbo1) (Some fbo2) (TM.aspect m)
                                (TM.action m) elapsed (timeStart s)
                                (TM.duration m))
        (materialRef w) /\
    calls w' =
      calls w ++ passes s ++
      match materialRef w with
      | Some _ => [setUniform "scene0" (texture_of fbo1);
                   setUniform "scene1" (texture_of fbo2);
                   setUniform "time" (number elapsed);
                   setUniform "timeStart" (number (timeStart s))]
      | None => []
      end.
Proof.
  intros H. apply index_ok_cases in H.
  destruct s as [a c ts g]; cbn [currentSceneIndex] in H.
  destruct w as [rt tex cv tc [m |] cs];
    destruct H as [-> | ->]; frame_eval;
    (eexists; split; [reflexivity |]);
    cbv [materialRef renderTarget texture canvas time_current calls
         TM.aspect TM.action TM.duration];
    rewrite <- ?app_assoc; cbn [app];
    repeat (split; [reflexivity |]); reflexivity.
Qed.


(** C6.  Every frame renders [scenes[currentSceneIndex]] into [fbo1], then
    [scenes[1 - currentSceneIndex]] into [fbo2], then binds the default
    target again; every later call of the callback is a uniform write, and
    the samplers of the compositor pass that follows read the two images
    just rendered. *)
Theorem frame_render_passes s camera elapsed w :
  index_ok s = true ->
  exists sc sc' w' writes,
    scenes_at (currentSceneIndex s) = Some sc /\
    scenes_at (1 - currentSceneIndex s) = Some sc' /\
    useFrame Camera rasterize s camera elapsed w = Some (tt, w') /\
    calls w' =
      calls w ++
      [setRenderTarget (Some fbo1); render sc;
       setRenderTarget (Some fbo2); render sc';
       setRenderTarget None] ++ writes /\
    (forall c, In c writes -> exists name v, c = setUniform name v) /\
    texture w' fbo1 = rasterize sc camera /\
    texture w' fbo2 = rasterize sc' camera /\
    renderTarget w' = None /\
    (forall m, materialRef w' = Some m ->
       bound w' (TM.scene0 m) = rasterize sc camera /\
       bound w' (TM.scene1 m) = rasterize sc' camera).
Proof.
  intros H.
  destruct (useFrame_spec s camera elapsed w H)
    as (w' & Hrun & Hrt & Ht1 & Ht2 & _ & _ & Hm & Hcalls).
  exists (pick (currentSceneIndex s)), (other (currentSceneIndex s)), w'.
  eexists.
  assert (Hsc : scenes_at (currentSceneIndex s)
                = Some (pick (currentSceneIndex s)) /\
                scenes_at (1 - currentSceneIndex s)
                = Some (other (currentSceneIndex s)))
    by (destruct (index_ok_cases s H) as [-> | ->]; split; reflexivity).
  destruct Hsc as [Hsc Hsc'].
  split; [exact Hsc | split; [exact Hsc' | split; [exact Hrun |]]].
  split; [exact Hcalls |].
  split.
  { intros c Hc. destruct (materialRef w); cbn [In] in Hc; [| contradiction].
    repeat (destruct Hc as [<- | Hc]; [eauto |]). contradiction. }
  split; [exact Ht1 | split; [exact Ht2 | split; [exact Hrt |]]].
  intros m Hm'. rewrite Hm in Hm'.
  destruct (materialRef w); cbn [option_map] in Hm'; [| discriminate].
  injection Hm' as <-. cbn [TM.scene0 TM.scene1 bound]. now split.
Qed.

(** C4.  A run of the effect while the guard is still set (as it is in the
    initial state) leaves [action], [currentSceneIndex] and [timeStart] as
    they were and only clears the guard, so the props React commits and
    everything the frame callback does are the same before and after. *)
Theorem first_toggle_only_clears_guard elapsed s :
  isFirstRender s = true ->
  action (toggleEffect elapsed s) = action s /\
  currentSceneIndex (toggleEffect elapsed s) = currentSceneIndex s /\
  timeStart (toggleEffect elapsed s) = timeStart s /\
  isFirstRender (toggleEffect elapsed s) = false /\
  (forall size w, commit size (toggleEffect elapsed s) w = commit size s w) /\
  (forall camera now w,
     useFrame Camera rasterize (toggleEffect elapsed s) camera now w =
     useFrame Camera rasterize s camera now w).
Proof.
  intros Hg. unfold toggleEffect. rewrite Hg. cbn [negb].
  repeat split.
Qed.

(** C8.  Past the guard, two consecutive runs of the effect bring
    [currentSceneIndex] back to its value, and with it the scene each
    frame renders into each target. *)
Theorem toggle_twice_restores_index e1 e2 s :
  isFirstRender s = false -> index_ok s = true ->
  currentSceneIndex (toggleEffect e2 (toggleEffect e1 s))
  = currentSceneIndex s /\
  forall camera now w,
  exists w1 w2,
    useFrame Camera rasterize s camera now w = Some (tt, w1) /\
    useFrame Camera rasterize (toggleEffect e2 (toggleEffect e1 s))
             camera now w = Some (tt, w2) /\
    texture w2 fbo1 = texture w1 fbo1 /\
    texture w2 fbo2 = texture w1 fbo2.
Proof.
  intros Hg Hok.
  assert (E : currentSceneIndex (toggleEffect e2 (toggleEffect e1 s))
              = currentSceneIndex s).
  { unfold toggleEffect. rewrite Hg.
    cbn [negb isFirstRender currentSceneIndex].
    destruct (index_ok_cases s Hok) as [-> | ->]; reflexivity. }
  split; [exact E |].
  intros camera now w.
  assert (Hok2 : index_ok (toggleEffect e2 (toggleEffect e1 s)) = true)
    by (unfold index_ok; rewrite E; exact Hok).
  destruct (useFrame_spec s camera now w Hok)
    as (w1 & Hrun1 & _ & Ha1 & Hb1 & _).
  destruct (useFrame_spec _ camera now w Hok2)
    as (w2 & Hrun2 & _ & Ha2 & Hb2 & _).
  exists w1, w2. rewrite E in Ha2, Hb2.
  repeat split; congruence.
Qed.

(** C9.  A frame that finds [materialRef.current] empty writes no uniform:
    its calls are the five renderer calls and nothing else, the ref stays
    empty and no fragment is shaded; both targets are filled as on any
    other frame, the default target is bound again and the canvas is left
    alone. *)
Theorem frame_without_material s camera elapsed w :
  index_ok s = true -> materialRef w = None ->
  exists sc sc' w',
    scenes_at (currentSceneIndex s) = Some sc /\
    scenes_at (1 - currentSceneIndex s) = Some sc' /\
    useFrame Camera rasterize s camera elapsed w = Some (tt, w') /\
    calls w' =
      calls w ++
      [setRenderTarget (Some fbo1); render sc;
       setRenderTarget (Some fbo2); render sc';
       setRenderTarget None] /\
    materialRef w' = None /\
    composite w' = None /\
    texture w' fbo1 = rasterize sc camera /\
    texture w' fbo2 = rasterize sc' camera /\
    renderTarget w' = None /\
    canvas w' = canvas w.
Proof.
  intros Hok Hnone.
  destruct (useFrame_spec s camera elapsed w Hok)
    as (w' & Hrun & Hrt & Ht1 & Ht2 & Hcv & _ & Hm & Hcalls).
  rewrite Hnone in Hm, Hcalls. cbn [option_map] in Hm.
  exists (pick (currentSceneIndex s)), (other (currentSceneIndex s)), w'.
  assert (Hsc : scenes_at (currentSceneIndex s)
                = Some (pick (currentSceneIndex s)) /\
                scenes_at (1 - currentSceneIndex s)
                = Some (other (currentSceneIndex s)))
    by (destruct (index_ok_cases s Hok) as [-> | ->]; split; reflexivity).
  destruct Hsc as [Hsc Hsc'].
  unfold composite. rewrite Hm, Hcalls. cbn [option_map].
  repeat (split; [first [assumption | reflexivity] |]); assumption.
Qed.

Lemma toggleEffect_past_guard elapsed s :
  isFirstRender s = false ->
  toggleEffect elapsed s =
  mkState (if (action s =? 0)%Z then 1 else 0)
          (if (currentSceneIndex s =? 0)%Z then 1 else 0)
          elapsed false.
Proof. intros Hg. unfold toggleEffect. rewrite Hg. reflexivity. Qed.

Lemma toggleEffect_index_ok elapsed s :
  index_ok s = true -> index_ok (toggleEffect elapsed s) = true.
Proof.
  intros Hok. unfold toggleEffect.
  destruct (isFirstRender s); cbn [negb]; [exact Hok |].
  unfold index_ok; cbn [currentSceneIndex].
  destruct (currentSceneIndex s =? 0)%Z; reflexivity.
Qed.

Lemma run_frame size s camera elapsed w w' :
  useFrame Camera rasterize s camera elapsed w = Some (tt, w') ->
  run Camera rasterize size [Frame camera elapsed] (s, w) = Some (s, w').
Proof. intros H. cbn [run step]. rewrite H. reflexivity. Qed.

Lemma run_toggle_frame size s e2 camera e3 w w1 w' :
  commit size (toggleEffect e2 s) w = Some (tt, w1) ->
  useFrame Camera rasterize (toggleEffect e2 s) camera e3 w1
  = Some (tt, w') ->
  run Camera rasterize size [Toggle e2; Frame camera e3] (s, w)
  = Some (toggleEffect e2 s, w').
Proof.
  intros H1 H2. cbn [run step]. rewrite H1. cbn [step].
  rewrite H2. reflexivity.
Qed.

(** A frame taken right after React committed state [s']: the uniforms it
    leaves in the material. *)
Lemma commit_then_frame size s' camera elapsed w :
  index_ok s' = true ->
  exists w1 w' m0,
    commit size s' w = Some (tt, w1) /\
    useFrame Camera rasterize s' camera elapsed w1 = Some (tt, w') /\
    texture w' fbo1 = rasterize (pick (currentSceneIndex s')) camera /\
    texture w' fbo2 = rasterize (other (currentSceneIndex s')) camera /\
    materialRef w1 =
      Some (TM.mkUniforms (TM.scene0 m0) (TM.scene1 m0)
                          (width size / height size)
                          (inject_Z (action s')) (time_current w)
                          (timeStart s') 3) /\
    materialRef w' =
      Some (TM.mkUniforms (Some fbo1) (Some fbo2)
                          (width size / height size)
                          (inject_Z (action s')) elapsed (timeStart s') 3).
Proof.
  intros Hok.
  eexists. 
  destruct (useFrame_spec s' camera elapsed
              (mkWorld (renderTarget w) (texture w) (canvas w)
                 (time_current w)
                 (Some (TM.mkUniforms
                          (TM.scene0 (match materialRef w with
                                      | Some m => m
                                      | None => TM.defaults
                                      end))
                          (TM.scene1 (match materialRef w with
                                      | Some m => m
                                      | None => TM.defaults
                                      end))
                          (width size / height size)
                          (inject_Z (action s')) (time_current w)
                          (timeStart s') 3))
                 (calls w)) Hok)
    as (w' & Hrun & _ & Ht1 & Ht2 & _ & _ & Hm & _).
  exists w'. eexists.
  split; [reflexivity |].
  split; [exact Hrun |].
  split; [exact Ht1 | split; [exact Ht2 |]].
  split; [reflexivity | exact Hm].
Qed.

Lemma other_index_swaps s :
  index_ok s = true ->
  pick (if (currentSceneIndex s =? 0)%Z then 1 else 0)%Z
  = other (currentSceneIndex s) /\
  other (if (currentSceneIndex s =? 0)%Z then 1 else 0)%Z
  = pick (currentSceneIndex s) /\
  pick (currentSceneIndex s) <> other (currentSceneIndex s).
Proof.
  intros Hok.
  destruct (index_ok_cases s Hok) as [-> | ->]; repeat split; discriminate.
Qed.

(** C2, amended.  One run of the effect past the guard swaps the scenes
    between the two targets: the frame before renders [scenes[c]] into
    [fbo1] and [scenes[1 - c]] into [fbo2], the frame after renders
    [scenes[1 - c]] into [fbo1] and [scenes[c]] into [fbo2].  The sampler
    uniforms keep referring to [fbo1.texture] and [fbo2.texture], [aspect]
    and [duration] keep their values; [action] flips, [timeStart] becomes
    the clock reading of the effect, and [time] is each frame's reading. *)
Theorem toggle_swaps_render_targets size s w0 w camera e1 e2 camera' e3 :
  isFirstRender s = false -> index_ok s = true ->
  commit size s w0 = Some (tt, w) ->
  exists sc sc' wa wb ma mb,
    scenes_at (currentSceneIndex s) = Some sc /\
    scenes_at (1 - currentSceneIndex s) = Some sc' /\
    sc <> sc' /\
    run Camera rasterize size [Frame camera e1] (s, w) = Some (s, wa) /\
    run Camera rasterize size [Toggle e2; Frame camera' e3] (s, wa)
    = Some (toggleEffect e2 s, wb) /\
    texture wa fbo1 = rasterize sc camera /\
    texture wa fbo2 = rasterize sc' camera /\
    texture wb fbo1 = rasterize sc' camera' /\
    texture wb fbo2 = rasterize sc camera' /\
    materialRef wa = Some ma /\ materialRef wb = Some mb /\
    TM.scene0 ma = Some fbo1 /\ TM.scene1 ma = Some fbo2 /\
    TM.scene0 mb = Some fbo1 /\ TM.scene1 mb = Some fbo2 /\
    TM.aspect mb = TM.aspect ma /\ TM.duration mb = TM.duration ma /\
    TM.action ma = inject_Z (action s) /\
    TM.action mb = inject_Z (if (action s =? 0)%Z then 1 else 0) /\
    ~ TM.action mb == TM.action ma /\
    TM.timeStart ma = timeStart s /\ TM.timeStart mb = e2 /\
    TM.time ma = e1 /\ TM.time mb = e3.
Proof.
  intros Hg Hok Hc.
  unfold commit in Hc. injection Hc as <-.
  match goal with
  | |- context [run _ _ _ [Frame camera e1] (s, ?w)] => set (wc := w)
  end.
  destruct (useFrame_spec s camera e1 wc Hok)
    as (wa & Hrun_a & _ & Ha1 & Ha2 & _ & _ & Hma & _).
  subst wc. cbn [materialRef option_map TM.aspect TM.action TM.duration]
    in Hma.
  pose proof (toggleEffect_index_ok e2 s Hok) as Hok'.
  destruct (commit_then_frame size (toggleEffect e2 s) camera' e3 wa Hok')
    as (w1 & wb & m0 & Hc1 & Hrun_b & Hb1 & Hb2 & _ & Hmb).
  rewrite (toggleEffect_past_guard e2 s Hg) in Hb1, Hb2, Hmb.
  cbn [currentSceneIndex action timeStart] in Hb1, Hb2, Hmb.
  destruct (other_index_swaps s Hok) as (Ep & Eo & Hne).
  rewrite Ep in Hb1. rewrite Eo in Hb2.
  assert (Hsc : scenes_at (currentSceneIndex s)
                = Some (pick (currentSceneIndex s)) /\
                scenes_at (1 - currentSceneIndex s)
                = Some (other (currentSceneIndex s)))
    by (destruct (index_ok_cases s Hok) as [-> | ->]; split; reflexivity).
  destruct Hsc as [Hsc Hsc'].
  exists (pick (currentSceneIndex s)), (other (currentSceneIndex s)), wa, wb.
  do 2 eexists.
  split; [exact Hsc | split; [exact Hsc' | split; [exact Hne |]]].
  split; [apply run_frame; exact Hrun_a |].
  split; [eapply run_toggle_frame; eassumption |].
  split; [exact Ha1 | split; [exact Ha2 |]].
  split; [exact Hb1 | split; [exact Hb2 |]].
  split; [exact Hma | split; [exact Hmb |]].
  cbn [TM.scene0 TM.scene1 TM.aspect TM.duration TM.action TM.timeStart
       TM.time].
  repeat (split; [reflexivity |]).
  split; [| repeat split].
  intros E. unfold Qeq, inject_Z in E. cbn [Qnum Qden] in E.
  destruct (action s =? 0)%Z eqn:Ea.
  - apply Z.eqb_eq in Ea. lia.
  - apply Z.eqb_neq in Ea. lia.
Qed.

(** C5, amended.  Past the guard, a run of the effect in the middle of a
    wipe is not ignored: [timeStart] becomes its clock reading [now] and
    [currentSceneIndex] flips.  The frame that follows at reading [later]
    draws with [time = later], [timeStart = now] and [duration = 3], so
    its blend factors are the ones computed for the progress
    [clamp((later - now) / 3)]: the ones for progress 0 (which is 0 for
    [d] in [[0,1]]) when the frame reads the very instant of the
    retrigger.  Whenever that frame is drawn, if the wipe had been started
    before [now], every fragment with [d] in [[0,1]] that the trajectory
    of the old wipe would have inside the band at that frame
    ([0 < f < 1] with the old [timeStart]) gets a strictly smaller blend
    factor instead; and at the instant of the retrigger the blend factor
    differs from any value strictly between 0 and 1 the fragment had just
    before. *)
Theorem retrigger_restarts_wipe size s w0 w camera now later :
  isFirstRender s = false -> index_ok s = true ->
  commit size s w0 = Some (tt, w) ->
  timeStart (toggleEffect now s) = now /\
  currentSceneIndex (toggleEffect now s) = (1 - currentSceneIndex s)%Z /\
  exists w' m',
    run Camera rasterize size [Toggle now; Frame camera later] (s, w)
    = Some (toggleEffect now s, w') /\
    materialRef w' = Some m' /\
    TM.timeStart m' = now /\ TM.time m' = later /\ TM.duration m' = 3 /\
    (forall d,
       TM.f m' d == TM.blendAt (clamp ((later - now) / 3) 0.0 1.0) d) /\
    (later == now ->
     (forall d, TM.f m' d == TM.blendAt 0 d) /\
     (forall d, 0 <= d <= 1 -> TM.f m' d == 0) /\
     (forall (before : TM.uniforms sampler2D) d,
        0 <= d <= 1 -> 0 < TM.f before d < 1 ->
        ~ TM.f m' d == TM.f before d)) /\
    (timeStart s < now ->
     forall (trajectory : TM.uniforms sampler2D) d,
       TM.timeStart trajectory == timeStart s ->
       TM.time trajectory == later ->
       TM.duration trajectory == 3 ->
       0 <= d <= 1 -> 0 < TM.f trajectory d < 1 ->
       TM.f m' d < TM.f trajectory d /\
       ~ TM.f m' d == TM.f trajectory d).
Proof.
  intros Hg Hok _.
  rewrite (toggleEffect_past_guard now s Hg).
  cbn [timeStart currentSceneIndex].
  split; [reflexivity |].
  split; [destruct (index_ok_cases s Hok) as [-> | ->]; reflexivity |].
  pose proof (toggleEffect_index_ok now s Hok) as Hok'.
  destruct (commit_then_frame size (toggleEffect now s) camera later w Hok')
    as (w1 & w' & m0 & Hc1 & Hrun & _ & _ & _ & Hm').
  pose proof (run_toggle_frame size s now camera later w w1 w' Hc1 Hrun)
    as Hr.
  rewrite (toggleEffect_past_guard now s Hg) in Hr, Hm'.
  cbn [timeStart action] in Hm'.
  exists w'. eexists.
  split; [exact Hr | split; [exact Hm' |]].
  cbn [TM.timeStart TM.time TM.duration].
  do 3 (split; [reflexivity |]).
  match goal with
  | |- context [TM.f ?m _] => set (m' := m)
  end.
  assert (Hfm : forall d,
            TM.f m' d == TM.blendAt (clamp ((later - now) / 3) 0.0 1.0) d)
    by (intros d; reflexivity).
  split; [exact Hfm |].
  split.
  - intros Einst.
    assert (Hp : clamp ((later - now) / 3) 0.0 1.0 == 0).
    { apply clamp_unit_low. rewrite Einst.
      setoid_replace ((now - now) / 3) with 0 by field. lra. }
    assert (Hf : forall d, TM.f m' d == TM.blendAt 0 d).
    { intros d. rewrite Hfm. apply blendAt_wd. exact Hp. }
    assert (H0 : forall d, 0 <= d <= 1 -> TM.f m' d == 0).
    { intros d Hd. rewrite Hf. apply blendAt_right.
      unfold TM.wavePosAt, TM.halfWave, TM.maxLength, TM.waveWidth. lra. }
    split; [exact Hf | split; [exact H0 |]].
    intros before d Hd Hb E. rewrite (H0 d Hd) in E. lra.
  - intros Hstarted trajectory d Ets Et Edur Hd Hband.
    assert (Er : (TM.time trajectory - TM.timeStart trajectory)
                 / TM.duration trajectory
                 == (later - timeStart s) / 3)
      by (rewrite Ets, Et, Edur; reflexivity).
    assert (Eft : TM.f trajectory d
                  == TM.blendAt
                       (clamp ((later - timeStart s) / 3) 0.0 1.0) d).
    { unfold TM.f, TM.progress. apply blendAt_wd, clamp_wd. exact Er. }
    assert (Hlt : TM.f m' d < TM.f trajectory d).
    { rewrite Hfm, Eft. apply blend_drops_with_ratio.
      - apply Qmult_lt_compat_r; [reflexivity | lra].
      - exact Hd.
      - rewrite <- Eft. exact Hband. }
    split; [exact Hlt |].
    intros E. rewrite E in Hlt. lra.
Qed.

End Frames.

(** *** The component at sample inputs *)

Lemma frame_render_passes_settled :
  exists w',
    useFrame unit paint settled tt 1 (committed settled) = Some (tt, w') /\
    texture w' fbo1 = paint scenes_0 tt /\
    texture w' fbo2 = paint scenes_1 tt /\
    renderTarget w' = None.
Proof.
  destruct (frame_render_passes unit paint settled tt 1 (committed settled))
    as (sc & sc' & w' & writes & Hsc & Hsc' & Hrun & _ & _ & H1 & H2 & Hrt & _).
  - reflexivity.
  - injection Hsc as <-. injection Hsc' as <-.
    exists w'. repeat split; assumption.
Defined.

Lemma first_toggle_only_clears_guard_on_mount :
  currentSceneIndex (toggleEffect 0 initialState) = 0%Z /\
  timeStart (toggleEffect 0 initialState) = -1000 /\
  isFirstRender (toggleEffect 0 initialState) = false.
Proof.
  destruct (first_toggle_only_clears_guard unit paint 0 initialState)
    as (_ & Hi & Ht & Hg & _).
  - reflexivity.
  - repeat split; assumption.
Defined.

Lemma toggle_twice_restores_index_settled :
  currentSceneIndex (toggleEffect 2 (toggleEffect 1 settled)) = 0%Z.
Proof.
  destruct (toggle_twice_restores_index unit paint 1 2 settled) as [E _].
  - reflexivity.
  - reflexivity.
  - exact E.
Defined.

Lemma frame_without_material_before_mount :
  exists w',
    useFrame unit paint settled tt 1 initialWorld = Some (tt, w') /\
    calls w' = [setRenderTarget (Some fbo1); render scenes_0;
                setRenderTarget (Some fbo2); render scenes_1;
                setRenderTarget None] /\
    materialRef w' = None.
Proof.
  destruct (frame_without_material unit paint settled tt 1 initialWorld)
    as (sc & sc' & w' & Hsc & Hsc' & Hrun & Hcalls & Hm & _).
  - reflexivity.
  - reflexivity.
  - injection Hsc as <-. injection Hsc' as <-.
    exists w'. repeat split; assumption.
Defined.

(** C2, as stated, fails: with [currentSceneIndex = 0] the frame before
    the effect renders [scenes[0]] into [fbo1]; the frame after it renders
    [scenes[1]] there, and besides [action] the [timeStart] uniform has
    changed too. *)
Lemma toggle_moves_scene_1_into_fbo1 :
  exists wa wb ma mb,
    run unit paint viewport [Frame tt 1] (settled, committed settled)
    = Some (settled, wa) /\
    run unit paint viewport [Toggle 2; Frame tt 3] (settled, wa)
    = Some (toggleEffect 2 settled, wb) /\
    calls wa =
      [setRenderTarget (Some fbo1); render scenes_0;
       setRenderTarget (Some fbo2); render scenes_1;
       setRenderTarget None;
       setUniform "scene0" (texture_of fbo1);
       setUniform "scene1" (texture_of fbo2);
       setUniform "time" (number 1);
       setUniform "timeStart" (number (-1000))] /\
    calls wb =
      calls wa ++
      [setRenderTarget (Some fbo1); render scenes_1;
       setRenderTarget (Some fbo2); render scenes_0;
       setRenderTarget None;
       setUniform "scene0" (texture_of fbo1);
       setUniform "scene1" (texture_of fbo2);
       setUniform "time" (number 3);
       setUniform "timeStart" (number 2)] /\
    texture wa fbo1 = paint scenes_0 tt /\
    texture wb fbo1 = paint scenes_1 tt /\
    ~ vec3_eq (rgb (texture wb fbo1 centre)) (rgb (texture wa fbo1 centre)) /\
    materialRef wa = Some ma /\ materialRef wb = Some mb /\
    TM.timeStart ma = -1000 /\ TM.timeStart mb = 2 /\
    TM.action ma = 0 /\ TM.action mb = 1.
Proof.
  match eval vm_compute in
        (run unit paint viewport [Frame tt 1] (settled, committed settled))
  with Some (_, ?wa) =>
    exists wa;
    match eval vm_compute in
          (run unit paint viewport [Toggle 2; Frame tt 3] (settled, wa))
    with Some (_, ?wb) => exists wb end
  end.
  do 2 eexists.
  split; [vm_compute; reflexivity |].
  split; [vm_compute; reflexivity |].
  split; [reflexivity |].
  split; [reflexivity |].
  split; [reflexivity |].
  split; [reflexivity |].
  split.
  { intros (Hr & _ & _). vm_compute in Hr. discriminate. }
  split; [reflexivity |].
  split; [reflexivity |].
  repeat split.
Qed.

Lemma toggle_swaps_render_targets_settled :
  exists wa wb,
    run unit paint viewport [Frame tt 1] (settled, committed settled)
    = Some (settled, wa) /\
    run unit paint viewport [Toggle 2; Frame tt 3] (settled, wa)
    = Some (toggleEffect 2 settled, wb) /\
    texture wa fbo1 = paint scenes_0 tt /\
    texture wb fbo1 = paint scenes_1 tt.
Proof.
  destruct (toggle_swaps_render_targets unit paint viewport settled
              initialWorld (committed settled) tt 1 2 tt 3)
    as (sc & sc' & wa & wb & ma & mb & Hsc & Hsc' & _ & Ha & Hb
        & Ha1 & _ & Hb1 & _).
  - reflexivity.
  - reflexivity.
  - reflexivity.
  - injection Hsc as <-. injection Hsc' as <-.
    exists wa, wb. repeat split; assumption.
Defined.

(** C5, as stated, fails: a wipe started at 0 is retriggered at 3/2 and
    the next frame reads the clock at 153/100; its progress is 1/100, and
    the fragment at [d = 0] gets the blend factor 29/4000, not the 0
    computed for progress 0. *)
Lemma next_frame_is_past_progress_0 :
  exists w' m',
    (3 # 2) - timeStart wiping < 3 /\
    run unit paint viewport [Toggle (3 # 2); Frame tt (153 # 100)]
        (wiping, committed wiping)
    = Some (toggleEffect (3 # 2) wiping, w') /\
    materialRef w' = Some m' /\
    TM.progress m' == 1 # 100 /\
    TM.f m' 0 == 29 # 4000 /\
    TM.blendAt 0 0 == 0 /\
    ~ TM.f m' 0 == TM.blendAt 0 0.
Proof.
  match eval vm_compute in
        (run unit paint viewport [Toggle (3 # 2); Frame tt (153 # 100)]
             (wiping, committed wiping))
  with Some (_, ?w) => exists w end.
  eexists.
  split; [reflexivity |].
  split; [vm_compute; reflexivity |].
  split; [reflexivity |].
  split; [reflexivity |].
  split; [reflexivity |].
  split; [reflexivity |].
  intros E. vm_compute in E. discriminate.
Qed.

Lemma retrigger_restarts_wipe_half_way :
  exists w' m',
    run unit paint viewport [Toggle (3 # 2); Frame tt (153 # 100)]
        (wiping, committed wiping)
    = Some (toggleEffect (3 # 2) wiping, w') /\
    materialRef w' = Some m' /\
    TM.f m' (1 # 2) < TM.f (started_at_0 (153 # 100)) (1 # 2).
Proof.
  destruct (retrigger_restarts_wipe unit paint viewport wiping initialWorld
              (committed wiping) tt (3 # 2) (153 # 100))
    as (_ & _ & w' & m' & Hrun & Hm & _ & _ & _ & _ & _ & Hlater).
  - reflexivity.
  - reflexivity.
  - reflexivity.
  - exists w', m'. split; [exact Hrun | split; [exact Hm |]].
    apply (Hlater ltac:(reflexivity) (started_at_0 (153 # 100)) (1 # 2)).
    + reflexivity.
    + reflexivity.
    + reflexivity.
    + lra.
    + split; reflexivity.
Defined.

End SceneProperties.

(** ** Further properties of the wipe shader *)

Module ShaderBounds.
Import GLSL TransitionMaterial Samples ShaderProperties.

Lemma blendAt_range p d : 0 <= blendAt p d <= 1.
Proof.
  rewrite blendAt_cubic.
  pose proof (clamp_unit_range (5 * p - 4 * d)) as [Hlo Hhi].
  split.
  - pose proof (cubic_mono 0 _ ltac:(lra) Hlo Hhi) as H. lra.
  - pose proof (cubic_mono _ 1 Hlo Hhi ltac:(lra)) as H. lra.
Qed.

Lemma mix_between v0 v1 w :
  0 <= w <= 1 -> Qmin v0 v1 <= mix v0 v1 w <= Qmax v0 v1.
Proof.
  intros [Hlo Hhi]. unfold mix.
  destruct (Qlt_le_dec v0 v1) as [Hlt | Hge].
  - rewrite Q.min_l, Q.max_r by lra.
    assert (H1 : 0 <= (v1 - v0) * w) by (apply Qmult_le_0_compat; lra).
    assert (H2 : 0 <= (v1 - v0) * (1 - w)) by (apply Qmult_le_0_compat; lra).
    split; lra.
  - rewrite Q.min_r, Q.max_l by lra.
    assert (H1 : 0 <= (v0 - v1) * w) by (apply Qmult_le_0_compat; lra).
    assert (H2 : 0 <= (v0 - v1) * (1 - w)) by (apply Qmult_le_0_compat; lra).
    split; lra.
Qed.

Lemma main_shows_scene1 (u : uniforms sampler2D) (vUv : vec2) :
  f u (x vUv) == 1 ->
  vec3_eq (rgb (main u vUv)) (rgb (texture2D (scene1 u) vUv)).
Proof.
  intros Hf.
  unfold main, mix3, mix, vec3_eq, texture2D; cbn [rgb red green blue].
  repeat split; rewrite Hf; ring.
Qed.

Lemma main_shows_scene0 (u : uniforms sampler2D) (vUv : vec2) :
  f u (x vUv) == 0 ->
  vec3_eq (rgb (main u vUv)) (rgb (texture2D (scene0 u) vUv)).
Proof.
  intros Hf.
  unfold main, mix3, mix, vec3_eq, texture2D; cbn [rgb red green blue].
  repeat split; rewrite Hf; ring.
Qed.

Lemma steady_blend {S} (u : uniforms S) (d : Q) :
  0 < duration u -> duration u <= time u - timeStart u -> 0 <= d <= 1 ->
  f u d == 1.
Proof.
  intros Hdur Hdone Hd. unfold f.
  rewrite (blendAt_wd _ 1 _ (progress_done u Hdur Hdone)).
  apply blendAt_left.
  unfold wavePosAt, halfWave, maxLength, waveWidth. lra.
Qed.

Lemma resting_blend {S} (u : uniforms S) (d : Q) :
  0 < duration u -> time u <= timeStart u -> 0 <= d ->
  f u d == 0.
Proof.
  intros Hdur Ht Hd. unfold f.
  assert (Hp : progress u == 0).
  { unfold progress. apply clamp_unit_low.
    apply Qle_shift_div_r; lra. }
  rewrite (blendAt_wd _ 0 _ Hp). apply blendAt_right.
  unfold wavePosAt, halfWave, maxLength, waveWidth. lra.
Qed.

(** For uniforms whose [duration] is not 0 (so that the ratio
    [(time - timeStart) / duration] is defined), the blend factor lies in
    [[0,1]], so every channel the shader writes lies between the two
    sampled channels: the composite invents no colour. *)
Theorem composite_between_samples (u : uniforms sampler2D) (vUv : vec2) :
  ~ duration u == 0 ->
  let s0 := rgb (texture2D (scene0 u) vUv) in
  let s1 := rgb (texture2D (scene1 u) vUv) in
  let out := rgb (main u vUv) in
  0 <= f u (x vUv) <= 1 /\
  Qmin (red s0) (red s1) <= red out <= Qmax (red s0) (red s1) /\
  Qmin (green s0) (green s1) <= green out <= Qmax (green s0) (green s1) /\
  Qmin (blue s0) (blue s1) <= blue out <= Qmax (blue s0) (blue s1).
Proof.
  intros _. cbv zeta.
  assert (Hf : 0 <= f u (x vUv) <= 1) by apply blendAt_range.
  split; [exact Hf |].
  unfold main, mix3; cbn [rgb red green blue].
  repeat split; apply mix_between; exact Hf.
Qed.

Lemma composite_between_samples_mid_wipe :
  0 <= f (started_at_0 1) (1 # 3) <= 1 /\
  0 <= red (rgb (main (started_at_0 1) (mkvec2 (1 # 3) (1 # 2)))) <= 1.
Proof.
  destruct (composite_between_samples (started_at_0 1)
              (mkvec2 (1 # 3) (1 # 2)))
    as (Hf & Hr & _).
  - cbn. lra.
  - split; [exact Hf | exact Hr].
Defined.

(** Until the clock passes [timeStart] (with a positive [duration]) the
    progress is 0 and the wave band lies left of the screen: the blend
    factor is 0 for every [d >= 0] and the fragment shows [scene0]. *)
Theorem wipe_starts_on_scene0 (u : uniforms sampler2D) (vUv : vec2) :
  0 < duration u -> time u <= timeStart u -> 0 <= x vUv ->
  progress u == 0 /\
  f u (x vUv) == 0 /\
  vec3_eq (rgb (main u vUv)) (rgb (texture2D (scene0 u) vUv)).
Proof.
  intros Hdur Ht Hd.
  assert (Hp : progress u == 0).
  { unfold progress. apply clamp_unit_low.
    apply Qle_shift_div_r; lra. }
  assert (Hf : f u (x vUv) == 0).
  { unfold f. rewrite (blendAt_wd _ 0 _ Hp). apply blendAt_right.
    unfold wavePosAt, halfWave, maxLength, waveWidth. lra. }
  split; [exact Hp | split; [exact Hf |]].
  now apply main_shows_scene0.
Qed.

Lemma wipe_starts_on_scene0_at_0 :
  f (started_at_0 0) (x centre) == 0 /\
  vec3_eq (rgb (main (started_at_0 0) centre)) crimson.
Proof.
  destruct (wipe_starts_on_scene0 (started_at_0 0) centre) as (_ & Hf & Hc).
  - reflexivity.
  - cbn. lra.
  - cbn. lra.
  - split; [exact Hf | exact Hc].
Defined.

(** In the middle of the band the two scenes are mixed half and half, and
    during a wipe the middle of the band moves linearly with the clock,
    from [-halfWave] to [1 + halfWave]. *)
Theorem band_centre_moves_linearly (u : uniforms sampler2D) :
  0 < duration u ->
  timeStart u <= time u -> time u <= timeStart u + duration u ->
  currWavePos u
  == - halfWave + maxLength * ((time u - timeStart u) / duration u) /\
  - halfWave <= currWavePos u <= 1 + halfWave /\
  f u (currWavePos u) == 1 # 2.
Proof.
  intros Hdur Hlo Hhi.
  assert (Hr : 0 <= (time u - timeStart u) / duration u <= 1).
  { split.
    - apply Qle_shift_div_l; lra.
    - apply Qle_shift_div_r; lra. }
  assert (Hp : progress u == (time u - timeStart u) / duration u)
    by (unfold progress; now apply clamp_unit_mid).
  assert (Hw : currWavePos u
               == - halfWave + maxLength * ((time u - timeStart u) / duration u)).
  { unfold currWavePos, wavePosAt. rewrite Hp. reflexivity. }
  split; [exact Hw |].
  split.
  { rewrite Hw. unfold halfWave, maxLength, waveWidth. lra. }
  unfold f, currWavePos. rewrite blendAt_cubic.
  assert (Hc : 5 * progress u - 4 * wavePosAt (progress u) == 1 # 2).
  { unfold wavePosAt, halfWave, maxLength, waveWidth. ring. }
  rewrite (clamp_wd _ _ 0.0 1.0 Hc).
  rewrite (clamp_unit_mid (1 # 2)) by lra.
  reflexivity.
Qed.

Lemma band_centre_moves_linearly_started_at_0 :
  currWavePos (started_at_0 1) == 7 # 24 /\
  f (started_at_0 1) (7 # 24) == 1 # 2.
Proof.
  destruct (band_centre_moves_linearly (started_at_0 1)) as (Hw & _ & Hf).
  - reflexivity.
  - cbn. lra.
  - cbn. lra.
  - split; reflexivity.
Defined.

End ShaderBounds.

(** ** The contents of the scenes *)

Module SceneStoreProperties.
Import SceneStore.

Section Random.

Variable random : nat -> Q.

(** The meshes built by [turns] turns of the loop that starts after [n]
    calls of [Math.random()] by the function itself. *)
Local Abbreviation built n turns :=
  (map (fun j => fst (newMesh random (n + 8 * j))) (seq 0 turns)).

Lemma loop_spec turns : forall n children,
  loop random turns n children
  = (children ++ built n turns, (n + 8 * turns)%nat).
Proof.
  induction turns as [| turns IH]; intros n children.
  - cbn [loop seq map]. rewrite app_nil_r. f_equal. lia.
  - cbn [loop]. unfold newMesh at 1. cbv zeta. rewrite IH.
    rewrite <- app_assoc. cbn [app].
    f_equal; [| lia].
    f_equal. cbn [seq map]. f_equal.
    + unfold newMesh. cbv zeta. cbn [fst].
      replace (n + 8 * 0)%nat with n by lia. reflexivity.
    + rewrite <- seq_shift, map_map.
      apply map_ext. intros j. f_equal. f_equal. lia.
Qed.

(** [createRandomGeometries] keeps the children the scene already has, in
    order, and appends exactly 50 meshes; the [j]-th of them is built from
    the function's own calls of [Math.random()] number [n + 8 j] to
    [n + 8 j + 7], and the function makes 400 such calls in all (calls made
    inside three.js are not among them). *)
Theorem createRandomGeometries_appends_50 n children :
  createRandomGeometries random n children
  = (children ++ built n 50, (n + 400)%nat) /\
  List.length (fst (createRandomGeometries random n children))
  = (List.length children + 50)%nat.
Proof.
  unfold createRandomGeometries. rewrite loop_spec.
  split; [reflexivity |].
  cbn [fst]. rewrite length_app, length_map, length_seq. reflexivity.
Qed.

(** The effect run on mount fills the two scenes one after the other: each
    gets 50 meshes, the first from the calls of [Math.random()] numbered
    [n .. n + 399] among those [createRandomGeometries] makes itself, the
    second from those numbered [n + 400 .. n + 799]; no number the function
    asked for is used for both scenes. *)
Theorem populate_fills_both_scenes n children0 children1 :
  populate random n children0 children1
  = (children0 ++ built n 50, children1 ++ built (n + 400) 50,
     (n + 800)%nat).
Proof.
  unfold populate, createRandomGeometries. rewrite !loop_spec.
  replace (n + 8 * 50 + 8 * 50)%nat with (n + 800)%nat by lia.
  reflexivity.
Qed.

Hypothesis random_range : forall k, 0 <= random k /\ random k < 1.

Lemma geometries_at_floor r :
  0 <= r -> r < 1 ->
  exists g,
    geometries_at
      (Qfloor (r * inject_Z (Z.of_nat (List.length geometries)))) = Some g.
Proof.
  intros Hlo Hhi. cbn [geometries List.length Z.of_nat Pos.of_succ_nat
                       Pos.succ].
  set (z := Qfloor (r * inject_Z 5)).
  assert (H0 : (0 <= z)%Z).
  { change 0%Z with (Qfloor (inject_Z 0)) at 1.
    subst z. apply Qfloor_resp_le.
    change (inject_Z 0) with 0. change (inject_Z 5) with 5. lra. }
  assert (H5 : (z < 5)%Z).
  { rewrite Zlt_Qlt. apply Qle_lt_trans with (r * inject_Z 5).
    - subst z. apply Qfloor_le.
    - change (inject_Z 5) with 5. lra. }
  assert (Hz : z = 0%Z \/ z = 1%Z \/ z = 2%Z \/ z = 3%Z \/ z = 4%Z) by lia.
  destruct Hz as [-> | [-> | [-> | [-> | ->]]]]; eexists; reflexivity.
Qed.

Lemma newMesh_in_range n : mesh_in_range (fst (newMesh random n)).
Proof.
  unfold newMesh. cbv zeta. cbn [fst].
  unfold mesh_in_range, vector_in_range, in_range.
  cbn [geometry color position rotation vx vy vz].
  pose proof (random_range n) as [? ?].
  pose proof (random_range (n + 1)) as [? ?].
  pose proof (random_range (n + 2)) as [? ?].
  pose proof (random_range (n + 3)) as [? ?].
  pose proof (random_range (n + 4)) as [? ?].
  pose proof (random_range (n + 5)) as [? ?].
  pose proof (random_range (n + 6)) as [? ?].
  pose proof (random_range (n + 7)) as [? ?].
  assert (Hpi : 0 < Math_PI) by reflexivity.
  assert (Hrot : forall r, 0 <= r -> r < 1 ->
                           0 <= r * Math_PI /\ r * Math_PI < Math_PI).
  { intros r Hr0 Hr1. split.
    - apply Qmult_le_0_compat; lra.
    - setoid_replace Math_PI with (1 * Math_PI) at 2 by ring.
      apply Qmult_lt_compat_r; assumption. }
  split; [now apply geometries_at_floor |].
  split; [split; lra |].
  split; [repeat split; lra |].
  repeat split; now apply Hrot.
Qed.

(** As long as [Math.random()] returns numbers in [[0,1)], every mesh in a
    scene whose meshes were in range stays in range after
    [createRandomGeometries]: the geometry index never leaves the array
    (no mesh is built on [undefined]), the colour is in [[0, 0xffffff)],
    each coordinate in [[-10, 10)] and each rotation in [[0, Math.PI)]. *)
Theorem createRandomGeometries_in_range n children :
  Forall mesh_in_range children ->
  Forall mesh_in_range (fst (createRandomGeometries random n children)).
Proof.
  intros Hc. unfold createRandomGeometries. rewrite loop_spec. cbn [fst].
  apply Forall_app. split; [exact Hc |].
  apply Forall_forall. intros m Hm.
  apply in_map_iff in Hm. destruct Hm as (j & <- & _).
  apply newMesh_in_range.
Qed.

End Random.

Lemma createRandomGeometries_in_range_fair_coin :
  Forall mesh_in_range
         (fst (createRandomGeometries (fun _ => 1 # 2) 0 [])).
Proof.
  apply (createRandomGeometries_in_range (fun _ => 1 # 2)).
  - intros k. split; lra.
  - constructor.
Defined.

End SceneStoreProperties.

(** ** Clicks on the button *)

Module AppProperties.
Import TransitionScene Lifecycle App SceneProperties.

Lemma clicks_snoc readings elapsed a :
  clicks (readings ++ [elapsed]) a = click elapsed (clicks readings a).
Proof. unfold clicks. rewrite fold_left_app. reflexivity. Qed.

Lemma click_runs_effect elapsed a :
  click elapsed a
  = mkApp (negb (toggle a)) (toggleEffect elapsed (scene a)).
Proof.
  unfold click, toggleScene, effectOnToggle.
  destruct (toggle a); reflexivity.
Qed.

(** Mounting runs the effect once, which uses up the guard; every click
    flips [toggle] and so runs the effect again.  After [k] clicks
    [currentSceneIndex] and [action] are both [k mod 2] (the very first
    click already starts a wipe), [toggle] is true exactly when [k] is odd,
    and [timeStart] is the clock reading of the last click, or still -1000
    if there was none. *)
Theorem clicks_set_index_to_parity (mounted_at : Q) (readings : list Q) :
  let a := clicks readings (mount mounted_at) in
  toggle a = Nat.odd (List.length readings) /\
  currentSceneIndex (scene a) = (Z.of_nat (List.length readings) mod 2)%Z /\
  action (scene a) = currentSceneIndex (scene a) /\
  isFirstRender (scene a) = false /\
  timeStart (scene a) = last readings (-1000).
Proof.
  cbv zeta. induction readings as [| elapsed readings IH] using rev_ind.
  - repeat split.
  - destruct IH as (Ht & Hi & Ha & Hg & _).
    rewrite clicks_snoc, click_runs_effect.
    rewrite (toggleEffect_past_guard elapsed _ Hg).
    cbn [toggle scene currentSceneIndex action isFirstRender timeStart].
    rewrite length_app. cbn [List.length]. rewrite Nat.add_1_r.
    rewrite last_last, Ha, Hi, Ht, Nat.odd_succ, <- Nat.negb_odd.
    rewrite Nat2Z.inj_succ.
    repeat split.
    pose proof (Z.mod_pos_bound (Z.of_nat (List.length readings)) 2
                  ltac:(lia)) as Hb.
    destruct (Z.of_nat (List.length readings) mod 2 =? 0)%Z eqn:E.
    + apply Z.eqb_eq in E. Z.div_mod_to_equations. lia.
    + apply Z.eqb_neq in E. Z.div_mod_to_equations. lia.
Qed.

End AppProperties.

(** ** Invariants of the running component *)

Module RunProperties.
Import GLSL TransitionScene Lifecycle Samples ShaderProperties.
Import SceneProperties ShaderBounds.

Section Runs.

Variable Camera : Type.
Variable rasterize : Scene -> Camera -> sampler2D.
Variable size : Size.

Local Abbreviation pick i := (if (i =? 0)%Z then scenes_0 else scenes_1).
Local Abbreviation other i := (if (i =? 0)%Z then scenes_1 else scenes_0).

Lemma index_not_ok_undefined s :
  index_ok s = false ->
  scenes_at (currentSceneIndex s) = None.
Proof.
  unfold index_ok, scenes_at. intros H. apply orb_false_iff in H.
  destruct H as [H0 H1]. apply Z.eqb_neq in H0, H1.
  destruct (currentSceneIndex s <? 0)%Z eqn:Hneg; [reflexivity |].
  apply Z.ltb_ge in Hneg.
  apply nth_error_None. cbn [scenes List.length]. lia.
Qed.

Lemma useFrame_undefined_scene s camera elapsed w :
  index_ok s = false ->
  useFrame Camera rasterize s camera elapsed w = None.
Proof.
  intros Hbad. unfold useFrame.
  rewrite (index_not_ok_undefined s Hbad).
  reflexivity.
Qed.

(** The frame callback throws exactly when [currentSceneIndex] is not an
    index of [scenes]: [scenes[currentSceneIndex]] is then [undefined] and
    the first [gl.render] fails. *)
Theorem useFrame_throws_iff s camera elapsed w :
  useFrame Camera rasterize s camera elapsed w = None
  <-> index_ok s = false.
Proof.
  split.
  - intros Hnone. destruct (index_ok s) eqn:Hok; [| reflexivity].
    destruct (useFrame_spec Camera rasterize s camera elapsed w Hok)
      as (w' & Hrun & _).
    congruence.
  - apply useFrame_undefined_scene.
Qed.

Lemma step_keeps_index_ok e s w :
  index_ok s = true ->
  exists s' w',
    step Camera rasterize size e (s, w) = Some (s', w') /\
    index_ok s' = true.
Proof.
  intros Hok. destruct e as [elapsed | camera elapsed].
  - cbn [step]. unfold commit. do 2 eexists. split; [reflexivity |].
    now apply toggleEffect_index_ok.
  - destruct (useFrame_spec Camera rasterize s camera elapsed w Hok)
      as (w' & Hrun & _).
    exists s, w'. cbn [step]. rewrite Hrun. now split.
Qed.

Lemma run_total (es : list (Event Camera)) : forall s w,
  index_ok s = true ->
  exists s' w',
    run Camera rasterize size es (s, w) = Some (s', w') /\
    index_ok s' = true.
Proof.
  induction es as [| e es IH]; intros s w Hok.
  - exists s, w. now split.
  - destruct (step_keeps_index_ok e s w Hok) as (s1 & w1 & Hstep & Hok1).
    destruct (IH s1 w1 Hok1) as (s' & w' & Hrun & Hok').
    exists s', w'. cbn [run]. rewrite Hstep. now split.
Qed.

(** From the initial state, whatever sequence of effect runs and frames is
    delivered, no frame throws: [currentSceneIndex] stays 0 or 1 and the
    whole sequence runs to its end. *)
Theorem run_never_throws (es : list (Event Camera)) (w : World) :
  exists s' w',
    run Camera rasterize size es (initialState, w) = Some (s', w') /\
    index_ok s' = true.
Proof.
  apply run_total. reflexivity.
Qed.

(** What React's commit and the frame callback keep true of the material:
    its float uniforms agree with the state. *)
Local Abbreviation in_sync s w :=
  (exists m,
     materialRef w = Some m /\
     TM.duration m = 3 /\
     TM.aspect m = width size / height size /\
     TM.action m = inject_Z (action s) /\
     TM.timeStart m = timeStart s).

Local Abbreviation samplers_bound w :=
  (exists m,
     materialRef w = Some m /\
     TM.scene0 m = Some fbo1 /\ TM.scene1 m = Some fbo2).

Lemma step_keeps_in_sync e s w s' w' :
  in_sync s w ->
  step Camera rasterize size e (s, w) = Some (s', w') ->
  in_sync s' w'.
Proof.
  intros (m & Hm & Hd & Ha & Hact & Hts) Hstep.
  destruct e as [elapsed | camera elapsed]; cbn [step] in Hstep.
  - unfold commit in Hstep. injection Hstep as <- <-.
    eexists. split; [reflexivity |]. repeat split.
  - destruct (index_ok s) eqn:Hok.
    + destruct (useFrame_spec Camera rasterize s camera elapsed w Hok)
        as (w1 & Hrun & _ & _ & _ & _ & _ & Hm1 & _).
      rewrite Hrun in Hstep. injection Hstep as <- <-.
      rewrite Hm in Hm1. cbn [option_map] in Hm1.
      eexists. split; [exact Hm1 |]. cbn. repeat split; assumption.
    + apply (useFrame_undefined_scene s camera elapsed w) in Hok.
      rewrite Hok in Hstep. discriminate.
Qed.

Lemma step_keeps_samplers_bound e s w s' w' :
  samplers_bound w ->
  step Camera rasterize size e (s, w) = Some (s', w') ->
  samplers_bound w'.
Proof.
  intros (m & Hm & H0 & H1) Hstep.
  destruct e as [elapsed | camera elapsed]; cbn [step] in Hstep.
  - unfold commit in Hstep. injection Hstep as <- <-.
    rewrite Hm. eexists. split; [reflexivity |]. now split.
  - destruct (index_ok s) eqn:Hok.
    + destruct (useFrame_spec Camera rasterize s camera elapsed w Hok)
        as (w1 & Hrun & _ & _ & _ & _ & _ & Hm1 & _).
      rewrite Hrun in Hstep. injection Hstep as <- <-.
      rewrite Hm in Hm1. cbn [option_map] in Hm1.
      eexists. split; [exact Hm1 |]. now split.
    + apply (useFrame_undefined_scene s camera elapsed w) in Hok.
      rewrite Hok in Hstep. discriminate.
Qed.

Lemma frame_binds_samplers camera elapsed s w s' w' :
  in_sync s w ->
  step Camera rasterize size (Frame camera elapsed) (s, w) = Some (s', w') ->
  samplers_bound w'.
Proof.
  intros (m & Hm & _) Hstep. cbn [step] in Hstep.
  destruct (index_ok s) eqn:Hok.
  - destruct (useFrame_spec Camera rasterize s camera elapsed w Hok)
      as (w1 & Hrun & _ & _ & _ & _ & _ & Hm1 & _).
    rewrite Hrun in Hstep. injection Hstep as <- <-.
    rewrite Hm in Hm1. cbn [option_map] in Hm1.
    eexists. split; [exact Hm1 |]. now split.
  - apply (useFrame_undefined_scene s camera elapsed w) in Hok.
    rewrite Hok in Hstep. discriminate.
Qed.

Lemma run_keeps_in_sync es : forall s w s' w',
  in_sync s w ->
  run Camera rasterize size es (s, w) = Some (s', w') ->
  in_sync s' w'.
Proof.
  induction es as [| e es IH]; intros s w s' w' Hinv Hrun; cbn [run] in Hrun.
  - injection Hrun as <- <-. exact Hinv.
  - destruct (step Camera rasterize size e (s, w)) as [[s1 w1] |] eqn:Hstep;
      [| discriminate].
    apply (IH s1 w1 s' w'); [| exact Hrun].
    now apply (step_keeps_in_sync e s w s1 w1).
Qed.

Lemma run_keeps_samplers_bound es : forall s w s' w',
  samplers_bound w ->
  run Camera rasterize size es (s, w) = Some (s', w') ->
  samplers_bound w'.
Proof.
  induction es as [| e es IH]; intros s w s' w' Hinv Hrun; cbn [run] in Hrun.
  - injection Hrun as <- <-. exact Hinv.
  - destruct (step Camera rasterize size e (s, w)) as [[s1 w1] |] eqn:Hstep;
      [| discriminate].
    apply (IH s1 w1 s' w'); [| exact Hrun].
    now apply (step_keeps_samplers_bound e s w s1 w1).
Qed.

(** Once the component is mounted, every sequence of effect runs and
    frames leaves a material whose [duration] is 3, whose [aspect] is
    width / height and whose [action] and [timeStart] are those of the
    React state: the branch for a missing material is never taken again.
    From the first frame on, the two samplers stay bound to
    [fbo1.texture] and [fbo2.texture]; no commit resets them. *)
Theorem uniforms_stay_in_sync (es : list (Event Camera)) :
  exists w0 s' w' m,
    mounted size = Some (initialState, w0) /\
    run Camera rasterize size es (initialState, w0) = Some (s', w') /\
    materialRef w' = Some m /\
    TM.duration m = 3 /\
    TM.aspect m = width size / height size /\
    TM.action m = inject_Z (action s') /\
    TM.timeStart m = timeStart s' /\
    ((exists camera elapsed, In (Frame camera elapsed) es) ->
     TM.scene0 m = Some fbo1 /\ TM.scene1 m = Some fbo2).
Proof.
  destruct (run_total es initialState
              (mkWorld None (fun _ => blank) blank 0
                 (Some (TM.mkUniforms None None (width size / height size)
                                      (inject_Z 0) 0 (-1000) 3)) [])
              eq_refl)
    as (s' & w' & Hrun & _).
  match type of Hrun with
  | run _ _ _ _ (_, ?w) = _ => set (w0 := w) in *
  end.
  assert (Hsync0 : in_sync initialState w0)
    by (eexists; split; [reflexivity |]; repeat split).
  destruct (run_keeps_in_sync es _ _ _ _ Hsync0 Hrun)
    as (m & Hm & Hd & Ha & Hact & Hts).
  exists w0, s', w', m.
  split; [reflexivity |].
  split; [exact Hrun |].
  repeat (split; [assumption |]).
  intros (camera & elapsed & Hin).
  apply in_split in Hin. destruct Hin as (es1 & es2 & ->).
  assert (Hsplit : forall l1 l2 sw sw',
            run Camera rasterize size (l1 ++ l2) sw = Some sw' ->
            exists sw1, run Camera rasterize size l1 sw = Some sw1 /\
                        run Camera rasterize size l2 sw1 = Some sw').
  { induction l1 as [| e l1 IH]; intros l2 sw sw' H; cbn [run app] in *.
    - now exists sw.
    - destruct (step Camera rasterize size e sw) as [sw1 |]; [| discriminate].
      now apply IH. }
  destruct (Hsplit _ _ _ _ Hrun) as ([s1 w1] & Hrun1 & Hrun2).
  cbn [run] in Hrun2.
  destruct (step Camera rasterize size (Frame camera elapsed) (s1, w1))
    as [[s2 w2] |] eqn:Hstep; [| discriminate].
  pose proof (run_keeps_in_sync es1 _ _ _ _ Hsync0 Hrun1) as Hsync1.
  pose proof (frame_binds_samplers _ _ _ _ _ _ Hsync1 Hstep) as Hb2.
  destruct (run_keeps_samplers_bound es2 _ _ _ _ Hb2 Hrun2)
    as (m' & Hm' & H0 & H1).
  rewrite Hm in Hm'. injection Hm' as <-. now split.
Qed.

Lemma toggleEffect_timeStart elapsed s t0 :
  timeStart s <= t0 -> t0 <= elapsed ->
  timeStart (toggleEffect elapsed s) <= elapsed.
Proof.
  intros H0 H1. unfold toggleEffect.
  destruct (isFirstRender s); cbn [negb timeStart]; lra.
Qed.

(** With a clock that never goes back, every frame is drawn with
    [timeStart <= time]: [timeStart] is the sentinel or an earlier reading
    of the same clock, so the progress is never clamped from below. *)
Theorem frames_never_precede_timeStart
    (es : list (Event Camera)) camera elapsed t0 s w s' w' m :
  timeStart s <= t0 ->
  nondecreasing t0 (es ++ [Frame camera elapsed]) ->
  run Camera rasterize size (es ++ [Frame camera elapsed]) (s, w)
  = Some (s', w') ->
  materialRef w' = Some m ->
  TM.time m = elapsed /\ TM.timeStart m <= TM.time m.
Proof.
  revert t0 s w.
  induction es as [| e es IH]; intros t0 s w Hts Hmono Hrun Hm.
  - cbn [app run step] in Hrun. cbn [app nondecreasing reading] in Hmono.
    destruct (index_ok s) eqn:Hok.
    + destruct (useFrame_spec Camera rasterize s camera elapsed w Hok)
        as (w1 & Hrun1 & _ & _ & _ & _ & _ & Hm1 & _).
      rewrite Hrun1 in Hrun. injection Hrun as <- <-.
      rewrite Hm in Hm1. destruct (materialRef w); [| discriminate].
      cbn [option_map] in Hm1. injection Hm1 as ->.
      cbn [TM.time TM.timeStart]. split; [reflexivity | lra].
    + apply (useFrame_undefined_scene s camera elapsed w) in Hok.
      rewrite Hok in Hrun. discriminate.
  - cbn [app run] in Hrun. cbn [app nondecreasing] in Hmono.
    destruct Hmono as [Hle Hmono].
    destruct (step Camera rasterize size e (s, w)) as [[s1 w1] |] eqn:Hstep;
      [| discriminate].
    apply (IH (reading e) s1 w1); try assumption.
    destruct e as [t | c t]; cbn [step reading] in *.
    + unfold commit in Hstep. injection Hstep as <- <-.
      now apply toggleEffect_timeStart with t0.
    + destruct (useFrame Camera rasterize s c t w) as [[u w2] |];
        [| discriminate].
      injection Hstep as <- <-. lra.
Qed.

(** The image composited after a frame run on a world that has a
    material. *)
Lemma frame_composite s camera elapsed w m :
  index_ok s = true -> materialRef w = Some m ->
  exists w',
    useFrame Camera rasterize s camera elapsed w = Some (tt, w') /\
    composite w'
    = Some (TM.main
              (TM.mkUniforms (rasterize (pick (currentSceneIndex s)) camera)
                             (rasterize (other (currentSceneIndex s)) camera)
                             (TM.aspect m) (TM.action m) elapsed
                             (timeStart s) (TM.duration m))).
Proof.
  intros Hok Hm.
  destruct (useFrame_spec Camera rasterize s camera elapsed w Hok)
    as (w' & Hrun & _ & Ht1 & Ht2 & _ & _ & Hm' & _).
  exists w'. split; [exact Hrun |].
  rewrite Hm in Hm'. cbn [option_map] in Hm'.
  unfold composite. rewrite Hm'. cbn [option_map].
  unfold upload. cbn [TM.scene0 TM.scene1 TM.aspect TM.action TM.time
                      TM.timeStart TM.duration bound].
  rewrite Ht1, Ht2. reflexivity.
Qed.

(** A frame drawn once the wipe is over shows, at every fragment of the
    screen, the scene at index [1 - currentSceneIndex]; when the effect
    then runs, a frame drawn at that very clock reading (same camera)
    still shows that scene: starting a wipe from rest does not change the
    picture. *)
Theorem trigger_from_rest_is_seamless s w0 w camera e1 e2 vUv :
  isFirstRender s = false -> index_ok s = true ->
  commit size s w0 = Some (tt, w) ->
  3 <= e1 - timeStart s ->
  0 <= x vUv <= 1 ->
  exists shown wa wb before after,
    scenes_at (1 - currentSceneIndex s) = Some shown /\
    run Camera rasterize size [Frame camera e1] (s, w) = Some (s, wa) /\
    composite wa = Some before /\
    run Camera rasterize size [Toggle e2; Frame camera e2] (s, wa)
    = Some (toggleEffect e2 s, wb) /\
    composite wb = Some after /\
    vec3_eq (rgb (before vUv)) (rgb (rasterize shown camera vUv)) /\
    vec3_eq (rgb (after vUv)) (rgb (rasterize shown camera vUv)).
Proof.
  intros Hg Hok Hc Hrest Hd.
  unfold commit in Hc. injection Hc as <-.
  match goal with
  | |- context [run _ _ _ [Frame camera e1] (s, ?w)] => set (wc := w)
  end.
  destruct (frame_composite s camera e1 wc _ Hok eq_refl)
    as (wa & Hrun_a & Hca).
  cbn [TM.aspect TM.action TM.duration] in Hca.
  pose proof (toggleEffect_index_ok e2 s Hok) as Hok'.
  destruct (commit_then_frame Camera rasterize size (toggleEffect e2 s)
              camera e2 wa Hok')
    as (w1 & wb0 & m0 & Hc1 & _ & _ & _ & Hm1 & _).
  destruct (frame_composite (toggleEffect e2 s) camera e2 w1 _ Hok' Hm1)
    as (wb & Hrun_b & Hcb).
  cbn [TM.aspect TM.action TM.duration] in Hcb.
  rewrite (toggleEffect_past_guard e2 s Hg) in Hcb.
  cbn [currentSceneIndex action timeStart] in Hcb.
  destruct (other_index_swaps s Hok) as (Ep & Eo & _).
  rewrite Ep, Eo in Hcb.
  exists (other (currentSceneIndex s)), wa, wb.
  do 2 eexists.
  split;
    [destruct (index_ok_cases s Hok) as [-> | ->]; reflexivity |].
  split; [apply run_frame; exact Hrun_a |].
  split; [exact Hca |].
  split; [eapply run_toggle_frame; eassumption |].
  split; [exact Hcb |].
  split.
  - apply (main_shows_scene1
             (TM.mkUniforms _ _ _ _ _ _ _) vUv).
    apply steady_blend; cbn [TM.time TM.timeStart TM.duration];
      [lra | lra | exact Hd].
  - apply (main_shows_scene0
             (TM.mkUniforms _ _ _ _ _ _ _) vUv).
    apply resting_blend; cbn [TM.time TM.timeStart TM.duration];
      [lra | lra | lra].
Qed.

(** After a run of the effect past the guard, a frame drawn three seconds
    or more later shows the scene at the index the state had before the
    effect ran: each completed wipe ends on the scene that was hidden
    before it. *)
Theorem completed_wipe_shows_other_scene s w0 w camera e2 e3 vUv :
  isFirstRender s = false -> index_ok s = true ->
  commit size s w0 = Some (tt, w) ->
  3 <= e3 - e2 ->
  0 <= x vUv <= 1 ->
  exists shown wb after,
    scenes_at (currentSceneIndex s) = Some shown /\
    run Camera rasterize size [Toggle e2; Frame camera e3] (s, w)
    = Some (toggleEffect e2 s, wb) /\
    composite wb = Some after /\
    vec3_eq (rgb (after vUv)) (rgb (rasterize shown camera vUv)).
Proof.
  intros Hg Hok _ Hdone Hd.
  pose proof (toggleEffect_index_ok e2 s Hok) as Hok'.
  destruct (commit_then_frame Camera rasterize size (toggleEffect e2 s)
              camera e3 w Hok')
    as (w1 & wb0 & m0 & Hc1 & _ & _ & _ & Hm1 & _).
  destruct (frame_composite (toggleEffect e2 s) camera e3 w1 _ Hok' Hm1)
    as (wb & Hrun_b & Hcb).
  cbn [TM.aspect TM.action TM.duration] in Hcb.
  rewrite (toggleEffect_past_guard e2 s Hg) in Hcb.
  cbn [currentSceneIndex action timeStart] in Hcb.
  destruct (other_index_swaps s Hok) as (Ep & Eo & _).
  rewrite Ep, Eo in Hcb.
  exists (pick (currentSceneIndex s)), wb.
  eexists.
  split;
    [destruct (index_ok_cases s Hok) as [-> | ->]; reflexivity |].
  split; [eapply run_toggle_frame; eassumption |].
  split; [exact Hcb |].
  apply (main_shows_scene1 (TM.mkUniforms _ _ _ _ _ _ _) vUv).
  apply steady_blend; cbn [TM.time TM.timeStart TM.duration];
    [lra | lra | exact Hd].
Qed.

End Runs.

(** *** The invariants at sample inputs *)

Lemma uniforms_stay_in_sync_after_one_frame :
  exists w0 s' w' m,
    mounted viewport = Some (initialState, w0) /\
    run unit paint viewport [Toggle 0; Frame tt 1] (initialState, w0)
    = Some (s', w') /\
    materialRef w' = Some m /\
    TM.scene0 m = Some fbo1 /\ TM.scene1 m = Some fbo2.
Proof.
  destruct (uniforms_stay_in_sync unit paint viewport [Toggle 0; Frame tt 1])
    as (w0 & s' & w' & m & Hmount & Hrun & Hm & _ & _ & _ & _ & Hbound).
  exists w0, s', w', m.
  split; [exact Hmount | split; [exact Hrun | split; [exact Hm |]]].
  apply Hbound. exists tt, 1. cbn [In]. auto.
Defined.

Lemma frames_never_precede_timeStart_two_clicks :
  exists s' w' m,
    run unit paint viewport [Toggle 0; Toggle 1; Frame tt 2]
        (initialState, committed initialState) = Some (s', w') /\
    materialRef w' = Some m /\
    TM.time m = 2 /\ TM.timeStart m <= TM.time m.
Proof.
  match eval vm_compute in
        (run unit paint viewport [Toggle 0; Toggle 1; Frame tt 2]
             (initialState, committed initialState))
  with Some (?s', ?w') =>
    match eval vm_compute in (materialRef w') with
    | Some ?m =>
        exists s', w', m;
        assert (Hrun : run unit paint viewport
                           ([Toggle 0; Toggle 1] ++ [Frame tt 2])
                           (initialState, committed initialState)
                       = Some (s', w')) by (vm_compute; reflexivity);
        assert (Hm : materialRef w' = Some m) by reflexivity;
        split; [exact Hrun | split; [exact Hm |]];
        apply (frames_never_precede_timeStart unit paint viewport
                 [Toggle 0; Toggle 1] tt 2 0 initialState
                 (committed initialState) s' w' m);
        [cbn; lra | cbn; repeat split; lra | exact Hrun | exact Hm]
    end
  end.
Defined.

Lemma trigger_from_rest_is_seamless_settled :
  exists wa wb before after,
    run unit paint viewport [Frame tt 1] (settled, committed settled)
    = Some (settled, wa) /\
    composite wa = Some before /\
    run unit paint viewport [Toggle 2; Frame tt 2] (settled, wa)
    = Some (toggleEffect 2 settled, wb) /\
    composite wb = Some after /\
    vec3_eq (rgb (before centre)) navy /\
    vec3_eq (rgb (after centre)) navy.
Proof.
  destruct (trigger_from_rest_is_seamless unit paint viewport settled
              initialWorld (committed settled) tt 1 2 centre)
    as (shown & wa & wb & before & after & Hs & Ha & Hca & Hb & Hcb
        & Hva & Hvb).
  - reflexivity.
  - reflexivity.
  - reflexivity.
  - cbn. lra.
  - cbn. lra.
  - injection Hs as <-.
    exists wa, wb, before, after.
    split; [exact Ha | split; [exact Hca | split; [exact Hb |]]].
    split; [exact Hcb | split; [exact Hva | exact Hvb]].
Defined.

Lemma completed_wipe_shows_other_scene_settled :
  exists wb after,
    run unit paint viewport [Toggle 2; Frame tt 5]
        (settled, committed settled)
    = Some (toggleEffect 2 settled, wb) /\
    composite wb = Some after /\
    vec3_eq (rgb (after centre)) crimson.
Proof.
  destruct (completed_wipe_shows_other_scene unit paint viewport settled
              initialWorld (committed settled) tt 2 5 centre)
    as (shown & wb & after & Hs & Hb & Hcb & Hv).
  - reflexivity.
  - reflexivity.
  - reflexivity.
  - lra.
  - cbn. lra.
  - injection Hs as <-.
    exists wb, after.
    split; [exact Hb | split; [exact Hcb | exact Hv]].
Defined.

End RunProperties.
